(** * Missing-value handling of the house-price pipeline

    A shallow embedding of [src/handle_missing_values.py] and
    [steps/handle_missing_values_step.py].

    The two strategy classes are thin wrappers around calls into the
    dataframe library, so the development has three layers:

    - a data model of a dataframe (row labels, named typed columns, absent
      cells) together with the library operations the source calls
      ([dropna], [fillna], [mean], [median], [mode], [select_dtypes],
      column selection and column assignment);
    - a small state-and-exception monad [py] over a store of dataframe
      objects and the log, in which the methods of the source are written
      statement by statement;
    - the properties of the strategies and of the pipeline step.

    Modelling conventions.  A number is the rational [Q] it denotes; the
    numbers a numeric column holds are binary64 floats, and what the library
    computes or stores in such a column is rounded to the nearest binary64
    number ([round64]; infinities and overflow are outside the model).  The
    absent cell (NaN / None) is [None].  The library operations are those of
    the releases 1.5 to 2.x of the dataframe library: an argument
    [thresh=None] that is passed to [dropna] counts as a threshold, and no
    count reaches it; [fillna(None)] raises [ValueError].  Frames have
    unique column labels wherever columns are selected and assigned by
    label; the library raises on the others. *)

From Stdlib Require Import QArith ZArith Ascii String List Bool Lia.
From stdpp Require Import gmap strings list.

Local Open Scope string_scope.
Local Open Scope list_scope.
Local Open Scope Z_scope.

(* ===================================================================== *)
(** * Data model *)
(* ===================================================================== *)

(** A present scalar: a number, a text or a boolean. *)
Inductive scalar : Type :=
  | SNum (q : Q)
  | SStr (s : string)
  | SBool (b : bool).

(** A cell of a dataframe; [None] is the absent cell. *)
Definition cell : Type := option scalar.

(** The values of a column.  A column of a numeric dtype holds numbers only;
    every other dtype (object, bool, text) is [Object]. *)
Inductive values : Type :=
  | Numeric (xs : list (option Q))
  | Object (xs : list cell).

(** A column: its label and its values. *)
Record Series : Type := { name : string; vals : values }.

(** A dataframe: the row labels and the columns in order. *)
Record DataFrame : Type := { index : list Z; columns : list Series }.

(** The numeric part [df[numeric_columns]] of a dataframe. *)
Record NumFrame : Type :=
  { nindex : list Z; ncolumns : list (string * list (option Q)) }.

Definition notna {A : Type} (x : option A) : bool :=
  match x with Some _ => true | None => false end.

(** The cells of a column, whatever its dtype. *)
Definition cells_of (v : values) : list cell :=
  match v with
  | Numeric xs => List.map (option_map SNum) xs
  | Object xs => xs
  end.

Definition cells (c : Series) : list cell := cells_of (vals c).

Definition is_number (c : Series) : bool :=
  match vals c with Numeric _ => true | Object _ => false end.

Definition names (df : DataFrame) : list string := List.map name (columns df).

(** Rows of a dataframe, as an iteration over the row labels: each row is
    its label and its cells in column order. *)
Fixpoint rows_of (idx : list Z) (cols : list (list cell)) : list (Z * list cell) :=
  match idx with
  | [] => []
  | l :: idx' =>
      (l, List.map (fun c => List.hd None c) cols)
        :: rows_of idx' (List.map (fun c => List.tl c) cols)
  end.

Definition rows (df : DataFrame) : list (Z * list cell) :=
  rows_of (index df) (List.map cells (columns df)).

(** Every column has one cell per row label. *)
Definition aligned (df : DataFrame) : bool :=
  forallb (fun c => Nat.eqb (length (cells c)) (length (index df))) (columns df).

Fixpoint distinct (ks : list string) : bool :=
  match ks with
  | [] => true
  | k :: ks' => negb (existsb (String.eqb k) ks') && distinct ks'
  end.

(** Column labels are unique (as for a frame read from a CSV file). *)
Definition unique_names (df : DataFrame) : bool := distinct (names df).

(* ===================================================================== *)
(** * The dataframe library *)
(* ===================================================================== *)

(** Exceptions the modelled code can raise. *)
Inductive exn : Type :=
  | UnsupportedStrategy (strategy : string)
      (* ValueError("Unsupported missing value handling strategy: ...") *)
  | MustSpecifyFillValue
      (* ValueError("Must specify a fill 'value' or 'method'.") *)
  | NoAxisNamed (axis : Z)
      (* ValueError("No axis named ... for object type DataFrame") *)
  | InvalidReference.
      (* a reference to no object; Python has none *)

(** ** Boolean-mask selection, [df.loc(axis)[mask]] *)

Fixpoint select {A : Type} (mask : list bool) (xs : list A) : list A :=
  match mask, xs with
  | b :: mask', x :: xs' => if b then x :: select mask' xs' else select mask' xs'
  | _, _ => []
  end.

Definition select_values (mask : list bool) (v : values) : values :=
  match v with
  | Numeric xs => Numeric (select mask xs)
  | Object xs => Object (select mask xs)
  end.

Definition loc_rows (mask : list bool) (df : DataFrame) : DataFrame :=
  {| index := select mask (index df);
     columns :=
       List.map (fun c => {| name := name c; vals := select_values mask (vals c) |})
                (columns df) |}.

Definition loc_columns (mask : list bool) (df : DataFrame) : DataFrame :=
  {| index := index df; columns := select mask (columns df) |}.

(** ** [count] and [dropna] *)

(** Number of non-absent cells. *)
Definition count {A : Type} (xs : list (option A)) : Z :=
  Z.of_nat (length (List.filter notna xs)).

(** [df.dropna(axis=axis, thresh=thresh)] with [thresh] passed by the
    caller: the non-absent cells are counted along the other axis and a
    label is kept when [count >= thresh] holds.  The comparison of a count
    with [None] is false, so with [thresh=None] no label is kept. *)
Definition dropna (axis : Z) (thresh : option Z) (df : DataFrame) : exn + DataFrame :=
  if axis =? 0 then
    let cnt := List.map (fun r => count (snd r)) (rows df) in
    let mask :=
      match thresh with
      | Some k => List.map (fun n => k <=? n) cnt
      | None => List.map (fun _ => false) cnt
      end in
    inr (loc_rows mask df)
  else if axis =? 1 then
    let cnt := List.map (fun c => count (cells c)) (columns df) in
    let mask :=
      match thresh with
      | Some k => List.map (fun n => k <=? n) cnt
      | None => List.map (fun _ => false) cnt
      end in
    inr (loc_columns mask df)
  else inl (NoAxisNamed axis).

(** ** Column selection *)

(** [df.select_dtypes(include='number').columns] *)
Definition select_dtypes_number (df : DataFrame) : list string :=
  List.map name (List.filter is_number (columns df)).

(** [df[keys]] for keys that label numeric columns, in a frame with unique
    column labels. *)
Definition getitem (df : DataFrame) (keys : list string) : NumFrame :=
  {| nindex := index df;
     ncolumns :=
       List.flat_map
         (fun k =>
            List.flat_map
              (fun c =>
                 match vals c with
                 | Numeric xs => if String.eqb (name c) k then [(k, xs)] else []
                 | Object _ => []
                 end)
              (columns df))
         keys |}.

(** [df[k] = xs]: the column labelled [k] gets new values in place; a new
    label is appended. *)
Definition setitem_column (k : string) (xs : list (option Q)) (cols : list Series)
  : list Series :=
  if existsb (fun c => String.eqb (name c) k) cols
  then List.map (fun c => if String.eqb (name c) k
                          then {| name := name c; vals := Numeric xs |} else c) cols
  else cols ++ [{| name := k; vals := Numeric xs |}].

(** [df[keys] = value]: pairs the keys with the columns of [value] in order
    and assigns one column after the other (in a frame with unique column
    labels; on the others the library raises). *)
Definition setitem (df : DataFrame) (keys : list string) (value : NumFrame) : DataFrame :=
  {| index := index df;
     columns :=
       List.fold_left
         (fun cols kv => setitem_column (fst kv) (snd (snd kv)) cols)
         (List.combine keys (ncolumns value))
         (columns df) |}.

(** ** Column statistics *)

(** The non-absent values of a column, in order. *)
Fixpoint present {A : Type} (xs : list (option A)) : list A :=
  match xs with
  | [] => []
  | Some x :: xs' => x :: present xs'
  | None :: xs' => present xs'
  end.



(** *** binary64 arithmetic *)

(** The integer nearest to [n / d], the even one on a tie. *)
Definition round_half_even (n : Z) (d : positive) : Z :=
  let fl := n / Zpos d in
  let r := n mod Zpos d in
  match (2 * r ?= Zpos d) with
  | Lt => fl
  | Gt => fl + 1
  | Eq => if Z.even fl then fl else fl + 1
  end.

(** [floor (log2 (n / d))] for a positive [n]. *)
Definition floor_log2 (n : Z) (d : positive) : Z :=
  let k := Z.log2 n - Z.log2 (Zpos d) in
  if 0 <=? k
  then (if Zpos d * 2 ^ k <=? n then k else k - 1)
  else (if Zpos d <=? n * 2 ^ (- k) then k else k - 1).

(** The binary64 number nearest to the positive fraction [n / d]: a
    significand of 53 bits, or a multiple of [2 ^ -1074] below the normal
    range; ties go to the even significand. *)
Definition round64_pos (n : Z) (d : positive) : Q :=
  let e := Z.max (floor_log2 n d - 52) (-1074) in
  if 0 <=? e
  then inject_Z (round_half_even n (d * Z.to_pos (2 ^ e)) * 2 ^ e)
  else Qred (round_half_even (n * 2 ^ (- e)) d # Z.to_pos (2 ^ (- e))).

(** Conversion to [float64]. *)
Definition round64 (q : Q) : Q :=
  match Qnum q with
  | Z0 => 0%Q
  | Zpos n => round64_pos (Zpos n) (Qden q)
  | Zneg n => Qopp (round64_pos (Zpos n) (Qden q))
  end.

(** Addition and division of [float64]. *)
Definition fadd (a b : Q) : Q := round64 (a + b).

Definition fdiv (a b : Q) : Q := round64 (a / b).

(** *** The sum of a [float64] array

    The library adds a contiguous array the way its array package does
    ([pairwise_sum] of the [add] reduction): fewer than 8 numbers are added
    from first to last; up to 128 numbers are added into 8 running sums, one
    for every eighth position, the 8 sums are added in pairs and the
    numbers left after the last full group of 8 are added one by one; a
    longer array is cut at half its length, rounded down to a multiple of 8,
    and the sums of the two parts are added.  Every addition is rounded. *)

(** [res += a[i]] for the numbers of [a] in order. *)
Definition seq_sum (acc : Q) (a : list Q) : Q := List.fold_left fadd a acc.

(** [r[j] += a[j]] for the positions of a group. *)
Fixpoint add_each (r a : list Q) : list Q :=
  match r, a with
  | x :: r', y :: a' => fadd x y :: add_each r' a'
  | _, _ => r
  end.

(** [k] groups of 8 added into the running sums; the numbers left over. *)
Fixpoint add_groups (k : nat) (r a : list Q) : list Q * list Q :=
  match k with
  | O => (r, a)
  | S k' => add_groups k' (add_each r (List.firstn 8 a)) (List.skipn 8 a)
  end.

(** The branch for 8 to 128 numbers. *)
Definition block_sum (a : list Q) : Q :=
  let (r, rest) :=
    add_groups (length a / 8 - 1) (List.firstn 8 a) (List.skipn 8 a) in
  let res :=
    match r with
    | [r0; r1; r2; r3; r4; r5; r6; r7] =>
        fadd (fadd (fadd r0 r1) (fadd r2 r3)) (fadd (fadd r4 r5) (fadd r6 r7))
    | _ => seq_sum 0%Q r
    end in
  seq_sum res rest.

(** The recursion; [fuel] bounds its depth and [length a] is enough
    ([pairwise_sum_fuel]). *)
Fixpoint pairwise_sum (fuel : nat) (a : list Q) : Q :=
  let n := length a in
  if (n <? 8)%nat then seq_sum 0%Q a
  else if (n <=? 128)%nat then block_sum a
  else
    match fuel with
    | O => block_sum a
    | S fuel' =>
        let n2 := (n / 2 - (n / 2) mod 8)%nat in
        fadd (pairwise_sum fuel' (List.firstn n2 a))
             (pairwise_sum fuel' (List.skipn n2 a))
    end.

(** The sum of a column that skips absent cells: an absent cell counts as
    0 and keeps its position in the array. *)
Definition float_sum (xs : list (option Q)) : Q :=
  pairwise_sum (length xs)
    (List.map (fun x => match x with Some v => round64 v | None => 0%Q end) xs).

(** The mean of a column with a non-absent cell as the library computes it:
    the [float64] sum divided by the number of non-absent cells. *)
Definition float_mean (xs : list (option Q)) : Q :=
  fdiv (float_sum xs) (inject_Z (count xs)).

(** [Series.mean()]: absent cells are skipped; absent when nothing is left. *)
Definition mean_of (xs : list (option Q)) : option Q :=
  match present xs with
  | [] => None
  | _ :: _ => Some (float_mean xs)
  end.

Fixpoint Qinsert (q : Q) (vs : list Q) : list Q :=
  match vs with
  | [] => [q]
  | v :: vs' => if Qle_bool q v then q :: vs else v :: Qinsert q vs'
  end.

Definition Qsort (vs : list Q) : list Q := List.fold_right Qinsert [] vs.

(** [Series.median()]: the middle of the sorted non-absent values, as
    [float64]; for an even count the [float64] sum of the two middle values
    divided by 2. *)
Definition median_of (xs : list (option Q)) : option Q :=
  let vs := Qsort (present xs) in
  let n := length vs in
  match n with
  | O => None
  | _ =>
      if Nat.even n
      then Some (fdiv (fadd (round64 (List.nth (n / 2 - 1)%nat vs 0%Q))
                            (round64 (List.nth (n / 2)%nat vs 0%Q)))
                      (inject_Z 2))
      else Some (round64 (List.nth (n / 2)%nat vs 0%Q))
  end.

Definition occurrences (q : Q) (vs : list Q) : nat :=
  length (List.filter (Qeq_bool q) vs).

Fixpoint Qnodup (vs : list Q) : list Q :=
  match vs with
  | [] => []
  | v :: vs' => if existsb (Qeq_bool v) vs' then Qnodup vs' else v :: Qnodup vs'
  end.

(** [Series.mode()]: the most frequent non-absent values, ascending; there
    can be several, and there is none for a column without values. *)
Definition mode_of (xs : list (option Q)) : list Q :=
  let vs := present xs in
  let top := List.fold_right Nat.max O (List.map (fun v => occurrences v vs) vs) in
  Qsort (Qnodup (List.filter (fun v => Nat.eqb (occurrences v vs) top) vs)).

(** [df.mean()] and [df.median()]: one statistic per column label. *)
Definition mean (f : NumFrame) : list (string * option Q) :=
  List.map (fun kx => (fst kx, mean_of (snd kx))) (ncolumns f).

Definition median (f : NumFrame) : list (string * option Q) :=
  List.map (fun kx => (fst kx, median_of (snd kx))) (ncolumns f).

(** [df.mode()]: a frame again.  Row [i] holds the [i]-th mode of each
    column; the rows are labelled [0 .. n-1] where [n] is the largest number
    of modes of a column, shorter columns are padded with absent cells. *)
Definition mode (f : NumFrame) : NumFrame :=
  let ms := List.map (fun kx => (fst kx, mode_of (snd kx))) (ncolumns f) in
  let n := List.fold_right Nat.max O (List.map (fun km => length (snd km)) ms) in
  {| nindex := List.map Z.of_nat (List.seq 0 n);
     ncolumns :=
       List.map
         (fun km => (fst km,
                     List.map Some (snd km)
                       ++ List.repeat None (n - length (snd km))%nat))
         ms |}.

(** ** [fillna] *)

(** [Series.fillna(v)] on a numeric column with a number or NaN. *)
Definition fill_num (v : option Q) (xs : list (option Q)) : list (option Q) :=
  match v with
  | None => xs
  | Some m => List.map (fun x => match x with None => Some m | Some _ => x end) xs
  end.

(** [df.fillna(value)] for a value keyed by column label (the result of
    [mean] or [median]): each labelled column is filled with its value. *)
Definition fillna_series (f : NumFrame) (value : list (string * option Q)) : NumFrame :=
  {| nindex := nindex f;
     ncolumns :=
       List.fold_left
         (fun cols kv =>
            List.map (fun kx => if String.eqb (fst kx) (fst kv)
                                then (fst kx, fill_num (snd kv) (snd kx)) else kx)
                     cols)
         value (ncolumns f) |}.

(** The cell of [value] at row label [l]; absent when [value] has no such
    row. *)
Fixpoint at_label (l : Z) (idx : list Z) (vs : list (option Q)) : option Q :=
  match idx, vs with
  | i :: idx', v :: vs' => if l =? i then v else at_label l idx' vs'
  | _, _ => None
  end.

Fixpoint fill_aligned (idx : list Z) (xs : list (option Q))
    (other : Z -> option Q) : list (option Q) :=
  match xs, idx with
  | x :: xs', l :: idx' =>
      (match x with Some _ => x | None => other l end)
        :: fill_aligned idx' xs' other
  | _, _ => xs
  end.

(** [df.fillna(value)] for a frame [value] (the result of [mode]): [value]
    is aligned with [df] on the row labels and on the column labels, and an
    absent cell takes the cell of [value] with the same row label and column
    label, if there is one. *)
Definition fillna_frame (f value : NumFrame) : NumFrame :=
  {| nindex := nindex f;
     ncolumns :=
       List.map
         (fun kx =>
            match List.find (fun kv => String.eqb (fst kv) (fst kx)) (ncolumns value) with
            | Some kv =>
                (fst kx, fill_aligned (nindex f) (snd kx)
                           (fun l => at_label l (nindex value) (snd kv)))
            | None => kx
            end)
         (ncolumns f) |}.

Definition fill_cell (v : scalar) (x : cell) : cell :=
  match x with None => Some v | Some _ => x end.

(** [Series.fillna(v)] with a scalar: a numeric column stays numeric when
    the scalar is a number, which is then stored as [float64], or when
    nothing is absent; else it becomes an object column, which holds the
    scalar as it is. *)
Definition fillna_values (v : scalar) (x : values) : values :=
  match x, v with
  | Numeric xs, SNum q => Numeric (fill_num (Some (round64 q)) xs)
  | Numeric xs, _ =>
      if forallb notna xs then x
      else Object (List.map (fill_cell v) (cells_of x))
  | Object xs, _ => Object (List.map (fill_cell v) xs)
  end.

(** [df.fillna(value)] with a scalar or [None]. *)
Definition fillna (df : DataFrame) (value : option scalar) : exn + DataFrame :=
  match value with
  | None => inl MustSpecifyFillValue
  | Some v =>
      inr {| index := index df;
             columns :=
               List.map (fun c => {| name := name c; vals := fillna_values v (vals c) |})
                        (columns df) |}
  end.

(* ===================================================================== *)
(** * Objects, log and exceptions: the monad [py] *)
(* ===================================================================== *)

Inductive level : Type := INFO | ERROR.

(** The log messages of the source, by their format string. *)
Inductive message : Type :=
  | DroppingMissingValues (axis : Z) (thresh : option Z)
      (* "Dropping missing values with axis={axis} and thresh={thresh}" *)
  | MissingValuesDropped          (* "Missing values dropped." *)
  | InvalidMethod (method : string)
      (* "Invalid method '{method}'. Allowed methods are: ... Defaulting to
         the method 'mean'." *)
  | FillingMissingValues (method : string)
      (* "Filling missing values using method: {method}" *)
  | MissingValuesFilled           (* "Missing values filled." *)
  | SwitchingStrategy             (* "Switching missing value handling strategy." *)
  | ExecutingStrategy.            (* "Executing missing value handling strategy." *)

(** A reference to a dataframe object. *)
Abbreviation ref := positive.

(** The dataframe objects that exist, and the log records written so far
    (latest last). *)
Record state : Type :=
  { heap : gmap positive DataFrame; log : list (level * message) }.

Inductive outcome (A : Type) : Type :=
  | Return (a : A)
  | Raise (e : exn).
Arguments Return {A} a.
Arguments Raise {A} e.

Definition py (A : Type) : Type := state -> outcome A * state.

Definition ret {A : Type} (a : A) : py A := fun s => (Return a, s).

Definition bind {A B : Type} (m : py A) (k : A -> py B) : py B :=
  fun s =>
    match m s with
    | (Return a, s') => k a s'
    | (Raise e, s') => (Raise e, s')
    end.

Definition raise {A : Type} (e : exn) : py A := fun s => (Raise e, s).

Declare Scope py_scope.
Delimit Scope py_scope with py.
Notation "x <- m ;; k" := (bind m (fun x => k))
  (at level 100, m at next level, right associativity) : py_scope.
Notation "m ;; k" := (bind m (fun _ => k))
  (at level 100, right associativity) : py_scope.

(** A library call that returns or raises. *)
Definition call {A : Type} (r : exn + A) : py A :=
  match r with inl e => raise e | inr a => ret a end.

Definition logging (lv : level) (msg : message) : py unit :=
  fun s => (Return tt, {| heap := heap s; log := log s ++ [(lv, msg)] |}).

(** A new object holding [df]. *)
Definition new (df : DataFrame) : py ref :=
  fun s =>
    let r := fresh (dom (heap s)) in
    (Return r, {| heap := <[r := df]> (heap s); log := log s |}).

(** The dataframe a reference denotes. *)
Definition deref (r : ref) : py DataFrame :=
  fun s =>
    match heap s !! r with
    | Some df => (Return df, s)
    | None => (Raise InvalidReference, s)
    end.

(** In-place update of the object behind [r]. *)
Definition update (r : ref) (df : DataFrame) : py unit :=
  fun s => (Return tt, {| heap := <[r := df]> (heap s); log := log s |}).

(** [df.copy()] *)
Definition copy (r : ref) : py ref :=
  (df <- deref r ;; new df)%py.

(* ===================================================================== *)
(** * The strategies of [handle_missing_values.py] *)
(* ===================================================================== *)

Local Open Scope py_scope.

Module DropMissingValuesStrategy.

Record t : Type := { axis : Z; thresh : option Z }.

(** [__init__(self, axis=0, thresh=None)] *)
Definition __init__ (axis : option Z) (thresh : option Z) : py t :=
  ret {| axis := default 0 axis; thresh := thresh |}.

(** [handle(self, df)] *)
Definition handle (self : t) (df : ref) : py ref :=
  logging INFO (DroppingMissingValues (axis self) (thresh self)) ;;
  d <- deref df ;;
  cleaned <- call (dropna (axis self) (thresh self) d) ;;
  df_cleaned <- new cleaned ;;
  logging INFO MissingValuesDropped ;;
  ret df_cleaned.

End DropMissingValuesStrategy.

Module FillMissingValuesStrategy.

Definition ALLOWED_METHODS : list string := ["mean"; "median"; "mode"; "constant"].

Definition allowed (method : string) : bool :=
  existsb (String.eqb method) ALLOWED_METHODS.

Record t : Type := { method : string; fill_value : option scalar }.

(** [__init__(self, method="mean", fill_value=None)] *)
Definition __init__ (method : option string) (fill_value : option scalar) : py t :=
  let method := default "mean" method in
  (if allowed method then ret tt else logging ERROR (InvalidMethod method)) ;;
  ret {| method := method; fill_value := fill_value |}.

(** [handle(self, df)] *)
Definition handle (self : t) (df : ref) : py ref :=
  logging INFO (FillingMissingValues (method self)) ;;
  df_cleaned <- copy df ;;
  df_cleaned <-
    (if String.eqb (method self) "mean" then
       d <- deref df_cleaned ;;
       let numeric_columns := select_dtypes_number d in
       update df_cleaned
         (setitem d numeric_columns
            (fillna_series (getitem d numeric_columns)
                           (mean (getitem d numeric_columns)))) ;;
       ret df_cleaned
     else if String.eqb (method self) "median" then
       d <- deref df_cleaned ;;
       let numeric_columns := select_dtypes_number d in
       update df_cleaned
         (setitem d numeric_columns
            (fillna_series (getitem d numeric_columns)
                           (median (getitem d numeric_columns)))) ;;
       ret df_cleaned
     else if String.eqb (method self) "mode" then
       d <- deref df_cleaned ;;
       let numeric_columns := select_dtypes_number d in
       update df_cleaned
         (setitem d numeric_columns
            (fillna_frame (getitem d numeric_columns)
                          (mode (getitem d numeric_columns)))) ;;
       ret df_cleaned
     else if String.eqb (method self) "constant" then
       d <- deref df_cleaned ;;
       filled <- call (fillna d (fill_value self)) ;;
       new filled
     else ret df_cleaned) ;;
  logging INFO MissingValuesFilled ;;
  ret df_cleaned.

End FillMissingValuesStrategy.

(** The abstract class: a strategy is one of the two subclasses, and
    [handle] dispatches on it. *)
Module MissingValueHandlingStrategy.

Inductive t : Type :=
  | Drop (s : DropMissingValuesStrategy.t)
  | Fill (s : FillMissingValuesStrategy.t).

Definition handle (self : t) (df : ref) : py ref :=
  match self with
  | Drop s => DropMissingValuesStrategy.handle s df
  | Fill s => FillMissingValuesStrategy.handle s df
  end.

End MissingValueHandlingStrategy.

Module MissingValueHandler.

Record t : Type := { _strategy : MissingValueHandlingStrategy.t }.

Definition __init__ (strategy : MissingValueHandlingStrategy.t) : py t :=
  ret {| _strategy := strategy |}.

Definition set_strategy (self : t) (strategy : MissingValueHandlingStrategy.t) : py t :=
  logging INFO SwitchingStrategy ;;
  ret {| _strategy := strategy |}.

Definition handle_missing_values (self : t) (df : ref) : py ref :=
  logging INFO ExecutingStrategy ;;
  MissingValueHandlingStrategy.handle (_strategy self) df.

End MissingValueHandler.

(* ===================================================================== *)
(** * The pipeline step of [handle_missing_values_step.py] *)
(* ===================================================================== *)

(** [handle_missing_values_step(data, strategy="mean")] *)
Definition handle_missing_values_step (data : ref) (strategy : option string) : py ref :=
  let strategy := default "mean" strategy in
  handler <-
    (if String.eqb strategy "drop" then
       s <- DropMissingValuesStrategy.__init__ (Some 0) None ;;
       MissingValueHandler.__init__ (MissingValueHandlingStrategy.Drop s)
     else if existsb (String.eqb strategy) ["mean"; "median"; "mode"; "constant"] then
       s <- FillMissingValuesStrategy.__init__ (Some strategy) None ;;
       MissingValueHandler.__init__ (MissingValueHandlingStrategy.Fill s)
     else raise (UnsupportedStrategy strategy)) ;;
  cleaned_df <- MissingValueHandler.handle_missing_values handler data ;;
  ret cleaned_df.

(** The scenario frame of the specification: three rows, two numeric
    columns [A = 1, 2, absent] and [B = absent, 4, 6]. *)
Definition scenario : DataFrame :=
  {| index := [0; 1; 2];
     columns :=
       [ {| name := "A"; vals := Numeric [Some (1#1)%Q; Some (2#1)%Q; None] |};
         {| name := "B"; vals := Numeric [None; Some (4#1)%Q; Some (6#1)%Q] |} ] |}.

(** The strategy objects the constructors build. *)
Definition fill_with (m : string) (v : option scalar) : FillMissingValuesStrategy.t :=
  {| FillMissingValuesStrategy.method := m; FillMissingValuesStrategy.fill_value := v |}.

Definition drop_with (a : Z) (k : option Z) : DropMissingValuesStrategy.t :=
  {| DropMissingValuesStrategy.axis := a; DropMissingValuesStrategy.thresh := k |}.

(* ===================================================================== *)
(** * Definitions used in the statements *)
(* ===================================================================== *)

(** [m] returns, from state [s], a reference to a dataframe equal to [out]. *)
Definition returns (m : py ref) (s : state) (out : DataFrame) : Prop :=
  exists r s', m s = (Return r, s') /\ heap s' !! r = Some out.

(** The first value bound to key [k]. *)
Fixpoint assoc {V : Type} (k : string) (l : list (string * V)) : option V :=
  match l with
  | [] => None
  | kv :: l' => if String.eqb k (fst kv) then Some (snd kv) else assoc k l'
  end.

(** A numeric column with its absent cells filled by its statistic; any
    other column as it is. *)
Definition fill_numeric (stat : list (option Q) -> option Q) (c : Series) : Series :=
  match vals c with
  | Numeric xs => {| name := name c; vals := Numeric (fill_num (stat xs) xs) |}
  | Object _ => c
  end.

(** The labels and values of the numeric columns, in order. *)
Definition numeric_part (cols : list Series) : list (string * list (option Q)) :=
  List.flat_map
    (fun c => match vals c with Numeric xs => [(name c, xs)] | Object _ => [] end)
    cols.

(** A column after the mean fill: in a numeric column every absent cell
    holds the mean of the non-absent cells of the column as [float64] (and
    stays absent when the column has none); any other column is the input
    column. *)
Definition mean_filled (c : Series) : Series :=
  match vals c with
  | Numeric xs =>
      {| name := name c;
         vals := Numeric
                   (List.map
                      (fun x => match x with
                                | Some _ => x
                                | None => match present xs with
                                          | [] => None
                                          | _ :: _ => Some (float_mean xs)
                                          end
                                end) xs) |}
  | Object _ => c
  end.

Definition mean_filled_frame (df : DataFrame) : DataFrame :=
  {| index := index df; columns := List.map mean_filled (columns df) |}.

(** The frame [fillna] builds for a scalar. *)
Definition constant_filled (v : scalar) (df : DataFrame) : DataFrame :=
  {| index := index df;
     columns :=
       List.map (fun c => {| name := name c; vals := fillna_values v (vals c) |})
                (columns df) |}.

(** The outcome of the branches of the fill that assign into the copy (and
    of no branch at all): the copy is the one new object, it holds [out],
    and the two log records are written. *)
Definition assigned (s : state) (df : ref) (m : string) (v : option scalar)
    (out : DataFrame) : Prop :=
  FillMissingValuesStrategy.handle (fill_with m v) df s
  = (Return (fresh (dom (heap s))),
     {| heap := <[fresh (dom (heap s)) := out]> (heap s);
        log := (log s ++ [(INFO, FillingMissingValues m)])
                 ++ [(INFO, MissingValuesFilled)] |}).

(** The shape of the result of a fill: on an existing dataframe [handle]
    either raises for want of a fill value, leaving one new object, or
    returns a new object; the objects that existed are as they were. *)
Inductive fill_result (s : state) (D : DataFrame) : outcome ref * state -> Prop :=
  | fill_assigned (m : string) (out : DataFrame) :
      let r := fresh (dom (heap s)) in
      fill_result s D
        (Return r,
         {| heap := <[r := out]> (heap s);
            log := (log s ++ [(INFO, FillingMissingValues m)])
                     ++ [(INFO, MissingValuesFilled)] |})
  | fill_rebound (out : DataFrame) :
      let r := fresh (dom (heap s)) in
      let r' := fresh (dom (<[r := D]> (heap s))) in
      fill_result s D
        (Return r',
         {| heap := <[r' := out]> (<[r := D]> (heap s));
            log := (log s ++ [(INFO, FillingMissingValues "constant")])
                     ++ [(INFO, MissingValuesFilled)] |})
  | fill_raised :
      let r := fresh (dom (heap s)) in
      fill_result s D
        (Raise MustSpecifyFillValue,
         {| heap := <[r := D]> (heap s);
            log := log s ++ [(INFO, FillingMissingValues "constant")] |}).

(** The column of [df.mode()] for a column with modes [ms], in a frame of
    [n] rows. *)
Definition mode_column (n : nat) (ms : list Q) : list (option Q) :=
  List.map Some ms ++ List.repeat None (n - length ms)%nat.

(** The number of rows of [df.mode()]. *)
Definition mode_rows (cols : list (string * list (option Q))) : nat :=
  List.fold_right Nat.max O (List.map (fun kx => length (mode_of (snd kx))) cols).

(** A column after the mode fill as the code performs it: an absent cell of
    a numeric column takes the cell of the mode frame with the same row
    label. *)
Definition mode_filled (idx : list Z) (n : nat) (c : Series) : Series :=
  match vals c with
  | Numeric xs =>
      {| name := name c;
         vals := Numeric
                   (fill_aligned idx xs
                      (fun l => at_label l (List.map Z.of_nat (List.seq 0 n))
                                         (mode_column n (mode_of xs)))) |}
  | Object _ => c
  end.

(** The strategy names of the configuration surface. *)
Definition strategy_names : list string :=
  ["drop"; "mean"; "median"; "mode"; "constant"].

(** The state in which the scenario frame is the only object. *)
Definition scenario_state : state :=
  {| heap := {[ 1%positive := scenario ]}; log := [] |}.

(** A frame whose second column has a single present cell. *)
Definition sparse : DataFrame :=
  {| index := [0; 1; 2];
     columns :=
       [ {| name := "A"; vals := Numeric [Some (1#1)%Q; Some (2#1)%Q; None] |};
         {| name := "B"; vals := Object [None; Some (SStr "x"); None] |};
         {| name := "C"; vals := Numeric [Some (3#1)%Q; Some (4#1)%Q; Some (5#1)%Q] |} ] |}.

(** A numeric column with the single mode 1 and an absent cell in its last
    row. *)
Definition repeated : DataFrame :=
  {| index := [0; 1; 2];
     columns := [ {| name := "A"; vals := Numeric [Some (1#1)%Q; Some (1#1)%Q; None] |} ] |}.

(* ===================================================================== *)
(** * The missing-value report of [missing_values_analysis.py] *)
(* ===================================================================== *)

Module SimpleMissingValuesAnalysis.

(** [df.isnull().sum()] for one column: the number of absent cells. *)
Definition isnull_sum (xs : list cell) : Z :=
  Z.of_nat (length (List.filter (fun x => negb (notna x)) xs)).

(** [identify_missing_values(self, df)]: the table [res] the method prints.
    One row per column of [df] that has an absent cell, in column order:
    the column label, [missing_values], and [missing_values_percentage],
    the count over [len(df)] times 100. *)
Definition identify_missing_values (df : DataFrame) : list (string * (Z * Q)) :=
  let res := List.map (fun c => (name c, isnull_sum (cells c))) (columns df) in
  let res := List.filter (fun km => 0 <? snd km) res in
  List.map
    (fun km =>
       (fst km,
        (snd km,
         (inject_Z (snd km) / inject_Z (Z.of_nat (length (index df))) * inject_Z 100)%Q)))
    res.

End SimpleMissingValuesAnalysis.

(* ===================================================================== *)
(** * Ingestion: [ingest_data.py] and [data_ingestion_step.py] *)
(* ===================================================================== *)

(** [s.endswith(suffix)] *)
Fixpoint endswith (s suffix : string) : bool :=
  match s with
  | EmptyString => String.eqb s suffix
  | String _ s' => String.eqb s suffix || endswith s' suffix
  end.

(** [s.split(sep)] for a separator of one character; the result is never
    empty. *)
Fixpoint split (sep : ascii) (s : string) : list string :=
  match s with
  | EmptyString => [EmptyString]
  | String c s' =>
      if Ascii.eqb c sep then EmptyString :: split sep s'
      else match split sep s' with
           | h :: t => String c h :: t
           | [] => [String c EmptyString]
           end
  end.

(** Whether [sep] occurs in [s]. *)
Fixpoint occurs (sep : ascii) (s : string) : bool :=
  match s with
  | EmptyString => false
  | String c s' => Ascii.eqb c sep || occurs sep s'
  end.

(** The file system and the CSV reader, as far as the ingestor uses them.
    [extractall zip dir] is [zipfile.ZipFile(zip, 'r').extractall(dir)]: it
    changes the file system and may fail; [listdir] is [os.listdir],
    [read_csv] is [pd.read_csv] and [path_join] is [os.path.join]. *)
Record OS (world oserror : Type) : Type :=
  { extractall : string -> string -> world -> option oserror * world;
    listdir : string -> world -> oserror + list string;
    read_csv : string -> world -> oserror + DataFrame;
    path_join : string -> string -> string }.
Arguments extractall {world oserror} _ _ _ _.
Arguments listdir {world oserror} _ _ _.
Arguments read_csv {world oserror} _ _ _.
Arguments path_join {world oserror} _ _ _.

(** Exceptions of the ingestion. *)
Inductive ingest_error (oserror : Type) : Type :=
  | NotZipFile
      (* ValueError("Provided file is not a .zip file.") *)
  | NoCsvFound
      (* FileNotFoundError("No csv files found in the zip file.") *)
  | MultipleCsvFound
      (* ValueError("Multiple csv files found in the zip file ...") *)
  | NoIngestorAvailable (file_extension : string)
      (* ValueError(f"No ingestor available for file extension: ...") *)
  | OSFailure (e : oserror).
      (* an exception of the file system or of the reader *)
Arguments NotZipFile {oserror}.
Arguments NoCsvFound {oserror}.
Arguments MultipleCsvFound {oserror}.
Arguments NoIngestorAvailable {oserror} file_extension.
Arguments OSFailure {oserror} e.

(** The file system and what was printed (latest last). *)
Record env (world : Type) : Type :=
  { fs : world; stdout : list (list string) }.
Arguments fs {world} _.
Arguments stdout {world} _.
Arguments Build_env {world} _ _.

(** The ingestors: the abstract class has one subclass. *)
Inductive DataIngestor : Type := ZipDataIngestor.

Section Ingestion.
Context {world oserror : Type} (os : OS world oserror).

(** [ZipDataIngestor.ingest(self, file_path)] *)
Definition ZipDataIngestor_ingest (file_path : string) (w : env world)
  : (ingest_error oserror + DataFrame) * env world :=
  if negb (endswith file_path ".zip") then (inl NotZipFile, w)
  else
    match extractall os file_path "extracted_data" (fs w) with
    | (Some e, fs1) => (inl (OSFailure e), {| fs := fs1; stdout := stdout w |})
    | (None, fs1) =>
        match listdir os "extracted_data" fs1 with
        | inl e => (inl (OSFailure e), {| fs := fs1; stdout := stdout w |})
        | inr extracted_files =>
            let w1 := {| fs := fs1; stdout := stdout w ++ [extracted_files] |} in
            let csv_files :=
              List.filter (fun f => endswith f ".csv") extracted_files in
            if Nat.eqb (length csv_files) 0 then (inl NoCsvFound, w1)
            else if Nat.ltb 1 (length csv_files) then (inl MultipleCsvFound, w1)
            else
              let csv_file_path :=
                path_join os "extracted_data" (List.nth 0 csv_files "") in
              match read_csv os csv_file_path fs1 with
              | inl e => (inl (OSFailure e), w1)
              | inr df => (inr df, w1)
              end
        end
    end.

(** [DataIngestor.ingest], dispatched on the subclass. *)
Definition ingest (self : DataIngestor) (file_path : string) (w : env world)
  : (ingest_error oserror + DataFrame) * env world :=
  match self with ZipDataIngestor => ZipDataIngestor_ingest file_path w end.

(** [DataIngestorFactory.get_data_ingestor(file_extension)] *)
Definition get_data_ingestor (file_extension : string)
  : ingest_error oserror + DataIngestor :=
  if String.eqb file_extension ".zip" || String.eqb file_extension "zip"
  then inr ZipDataIngestor
  else inl (NoIngestorAvailable file_extension).

(** [data_ingestion_step(file_path)] *)
Definition data_ingestion_step (file_path : string) (w : env world)
  : (ingest_error oserror + DataFrame) * env world :=
  let file_extension := List.last (split "."%char file_path) "" in
  match get_data_ingestor file_extension with
  | inl e => (inl e, w)
  | inr data_ingestor => ingest data_ingestor file_path w
  end.

End Ingestion.

(** A file system for examples: the names in [extracted_data]; every
    archive holds the one file [data.csv], whose content is the scenario
    frame. *)
Definition toy_os : OS (list string) unit :=
  {| extractall := fun _ _ names => (None, names ++ ["data.csv"]);
     listdir := fun _ names => inr names;
     read_csv := fun _ _ => inr scenario;
     path_join := fun d f => String.append d (String.append "/" f) |}.

(** ** Further definitions used in the statements *)

(** [y] is the cell [x] whenever [x] is present. *)
Definition kept (x y : cell) : Prop :=
  match x with Some _ => y = x | None => True end.

(** The frames the branches of the fill build: same labels, present cells
    kept. *)
Definition preserved (D out : DataFrame) : Prop :=
  index out = index D
  /\ names out = names D
  /\ Forall2 (fun c c' => Forall2 kept (cells c) (cells c')) (columns D) (columns out).

(** What [fillna] stores for the scalar [v] in a column with values [x]: a
    number goes into a numeric column as [float64]. *)
Definition stored_as (x : values) (v : scalar) : scalar :=
  match x, v with
  | Numeric _, SNum q => SNum (round64 q)
  | _, _ => v
  end.








Definition sparse_state : state :=
  {| heap := {[ 1%positive := sparse ]}; log := [] |}.

(* ===================================================================== *)
(** * Lemmas on the dataframe library *)
(* ===================================================================== *)

(** The depth of the summation never reaches a fuel of the length of the
    array: any two such amounts give the same sum. *)
Lemma pairwise_sum_fuel (f1 : nat) :
  forall (f2 : nat) (a : list Q),
    (length a <= f1)%nat -> (length a <= f2)%nat ->
    pairwise_sum f1 a = pairwise_sum f2 a.
Proof.
  induction f1 as [|f1 IH]; intros f2 a H1 H2.
  - destruct a; [|simpl in H1; lia]. now destruct f2.
  - destruct f2 as [|f2].
    + destruct a; [reflexivity | simpl in H2; lia].
    + cbn [pairwise_sum].
      destruct (length a <? 8)%nat eqn:E8; [reflexivity|].
      destruct (length a <=? 128)%nat eqn:E128; [reflexivity|].
      apply Nat.leb_gt in E128.
      set (n := length a) in *.
      assert (Hn2 : (0 < n / 2 - (n / 2) mod 8 < n)%nat).
      { pose proof (Nat.div_mod_eq n 2) as Hd.
        pose proof (Nat.mod_upper_bound n 2 ltac:(lia)).
        pose proof (Nat.mod_upper_bound (n / 2) 8 ltac:(lia)).
        lia. }
      f_equal; apply IH;
        rewrite ?List.length_firstn, ?List.length_skipn; fold n; lia.
Qed.

(** A column of fewer than 8 rows is added from first to last. *)
Lemma float_sum_short (xs : list (option Q)) :
  (length xs < 8)%nat ->
  float_sum xs
  = seq_sum 0%Q
      (List.map (fun x => match x with Some v => round64 v | None => 0%Q end) xs).
Proof.
  intros H. unfold float_sum.
  assert (E : forall (f : nat) (a : list Q),
             (length a < 8)%nat -> pairwise_sum f a = seq_sum 0%Q a).
  { intros [|f] a Ha; cbn [pairwise_sum]; apply Nat.ltb_lt in Ha; now rewrite Ha. }
  apply E. now rewrite List.length_map.
Qed.

Section Select.
Context {A B : Type}.

Lemma select_map (f : A -> B) (mask : list bool) (xs : list A) :
  select mask (List.map f xs) = List.map f (select mask xs).
Proof.
  revert xs; induction mask as [|b mask IH]; intros [|x xs]; simpl; trivial.
  destruct b; simpl; now rewrite IH.
Qed.

Lemma select_filter (p : A -> bool) (xs : list A) :
  select (List.map p xs) xs = List.filter p xs.
Proof.
  induction xs as [|x xs IH]; simpl; trivial.
  destruct (p x); now rewrite IH.
Qed.

Lemma select_length_le (mask : list bool) (xs : list A) :
  (length (select mask xs) <= length xs)%nat.
Proof.
  revert xs; induction mask as [|b mask IH]; intros [|x xs]; simpl; try lia.
  specialize (IH xs). destruct b; simpl; lia.
Qed.
End Select.

Lemma cells_select (mask : list bool) (c : Series) :
  cells {| name := name c; vals := select_values mask (vals c) |}
  = select mask (cells c).
Proof.
  unfold cells; simpl. destruct (vals c); simpl; trivial.
  now rewrite select_map.
Qed.

Lemma rows_of_length (idx : list Z) (cols : list (list cell)) :
  length (rows_of idx cols) = length idx.
Proof.
  revert cols; induction idx as [|l idx IH]; intros cols; simpl; trivial.
  now rewrite IH.
Qed.

Lemma rows_of_width (idx : list Z) (cols : list (list cell)) :
  Forall (fun r => length (snd r) = length cols) (rows_of idx cols).
Proof.
  revert cols; induction idx as [|l idx IH]; intros cols; simpl; constructor.
  - simpl. now rewrite List.length_map.
  - specialize (IH (List.map (fun c => List.tl c) cols)).
    now rewrite List.length_map in IH.
Qed.

(** Selecting the rows of every column selects the rows of the frame. *)
Lemma rows_of_select (mask : list bool) :
  forall (idx : list Z) (cols : list (list cell)),
    length idx = length mask ->
    Forall (fun c => length c = length mask) cols ->
    rows_of (select mask idx) (List.map (select mask) cols)
    = select mask (rows_of idx cols).
Proof.
  induction mask as [|b mask IH]; intros idx cols Hidx Hcols.
  - destruct idx; simpl in *; [trivial | discriminate].
  - destruct idx as [|l idx]; simpl in Hidx; [discriminate|].
    assert (Htl : Forall (fun c => length c = length mask)
                         (List.map (fun c => List.tl c) cols)).
    { clear -Hcols. induction Hcols as [|c cols Hc _ IHc]; simpl; constructor; trivial.
      destruct c; simpl in *; [discriminate | lia]. }
    assert (Hsel :
              List.map (fun c => List.tl c) (List.map (select (true :: mask)) cols)
              = List.map (select mask) (List.map (fun c => List.tl c) cols)
              /\ List.map (fun c => List.hd None c) (List.map (select (true :: mask)) cols)
                 = List.map (fun c => List.hd None c) cols
              /\ List.map (select (false :: mask)) cols
                 = List.map (select mask) (List.map (fun c => List.tl c) cols)).
    { clear -Hcols. rewrite List.Forall_forall in Hcols.
      rewrite !List.map_map.
      repeat split; apply List.map_ext_in; intros c Hc;
        specialize (Hcols c Hc); destruct c; simpl in *;
        solve [discriminate | reflexivity]. }
    destruct Hsel as (E1 & E2 & E3).
    destruct b.
    + change (rows_of (l :: select mask idx) (List.map (select (true :: mask)) cols)
              = (l, List.map (fun c => List.hd None c) cols)
                  :: select mask (rows_of idx (List.map (fun c => List.tl c) cols))).
      cbn [rows_of]. rewrite E1, E2. f_equal. apply IH; [lia | exact Htl].
    + change (rows_of (select mask idx) (List.map (select (false :: mask)) cols)
              = select mask (rows_of idx (List.map (fun c => List.tl c) cols))).
      rewrite E3. apply IH; [lia | exact Htl].
Qed.

Lemma count_full {A : Type} (xs : list (option A)) :
  (count xs =? Z.of_nat (length xs)) = forallb notna xs.
Proof.
  unfold count.
  assert (H : forallb notna xs
              = Nat.eqb (length (List.filter notna xs)) (length xs)).
  { induction xs as [|x xs IH]; [reflexivity|].
    pose proof (List.filter_length_le notna xs) as Hle.
    destruct x; cbn [forallb List.filter notna length andb].
    - rewrite IH. reflexivity.
    - symmetry. apply Nat.eqb_neq. lia. }
  rewrite H.
  destruct (Nat.eqb_spec (length (List.filter notna xs)) (length xs));
    [apply Z.eqb_eq | apply Z.eqb_neq]; lia.
Qed.

Lemma aligned_Forall (df : DataFrame) :
  aligned df = true ->
  Forall (fun c => length c = length (index df)) (List.map cells (columns df)).
Proof.
  unfold aligned. intros H. rewrite List.forallb_forall in H.
  apply List.Forall_forall. intros c Hc.
  apply List.in_map_iff in Hc as (c0 & <- & Hin).
  now apply Nat.eqb_eq, H.
Qed.

Lemma select_none {A B : Type} (l : list B) (xs : list A) :
  select (List.map (fun _ => false) l) xs = [].
Proof.
  revert xs. induction l as [|y l IH]; intros [|x xs]; simpl; auto.
Qed.

(** With [thresh=None] passed, [dropna] keeps no label of its axis: along
    the rows every column is left without a cell, along the columns no
    column is left. *)
Lemma dropna_none (df : DataFrame) :
  dropna 0 None df
  = inr {| index := [];
           columns :=
             List.map (fun c => {| name := name c;
                                   vals := match vals c with
                                           | Numeric _ => Numeric []
                                           | Object _ => Object []
                                           end |})
                      (columns df) |}
  /\ dropna 1 None df = inr {| index := index df; columns := [] |}.
Proof.
  unfold dropna, loc_rows, loc_columns. cbn [Z.eqb]. split.
  - rewrite List.map_map, select_none. do 2 f_equal.
    apply List.map_ext. intros c. unfold select_values.
    destruct (vals c); now rewrite select_none.
  - now rewrite List.map_map, select_none.
Qed.

(** With a threshold [k], [dropna] along the columns keeps exactly the
    columns with at least [k] present cells. *)
Lemma dropna_columns_thresh (k : Z) (df : DataFrame) :
  dropna 1 (Some k) df
  = inr {| index := index df;
           columns := List.filter (fun c => k <=? count (cells c)) (columns df) |}.
Proof.
  unfold dropna, loc_columns; simpl. do 2 f_equal.
  rewrite List.map_map. apply select_filter.
Qed.

(** ** Filling with a per-column statistic *)

Lemma distinct_NoDup (ks : list string) : distinct ks = true -> List.NoDup ks.
Proof.
  induction ks as [|k ks IH]; simpl; intros H; constructor.
  - apply andb_prop in H as [H _]. intros Hin.
    apply negb_true_iff in H.
    assert (existsb (String.eqb k) ks = true) as E; [|congruence].
    apply List.existsb_exists. exists k. split; [exact Hin | apply String.eqb_refl].
  - apply andb_prop in H as [_ H]. auto.
Qed.

Section Assoc.
Context {V : Type}.

Lemma assoc_None (k : string) (l : list (string * V)) :
  ~ List.In k (List.map fst l) -> assoc k l = None.
Proof.
  induction l as [|kv l IH]; simpl; intros H; trivial.
  destruct (String.eqb_spec k (fst kv)) as [E|E].
  - exfalso. apply H. left. congruence.
  - apply IH. tauto.
Qed.

Lemma assoc_In (k : string) (v : V) (l : list (string * V)) :
  List.NoDup (List.map fst l) -> List.In (k, v) l -> assoc k l = Some v.
Proof.
  induction l as [|kv l IH]; simpl; intros Hnd Hin; [contradiction|].
  inversion Hnd as [|? ? Hk Hnd']; subst.
  destruct Hin as [->|Hin]; simpl.
  - now rewrite String.eqb_refl.
  - destruct (String.eqb_spec k (fst kv)) as [E|E]; [|auto].
    exfalso. apply Hk. rewrite <- E.
    apply List.in_map_iff. exists (k, v). auto.
Qed.
End Assoc.

(** Updating, for each binding of [bs] in turn, the elements with that
    key: with distinct keys every element is updated once, by its own
    binding. *)
Lemma fold_left_update {C V : Type} (key : C -> string) (upd : V -> C -> C) :
  (forall v c, key (upd v c) = key c) ->
  forall (bs : list (string * V)) (cols : list C),
    List.NoDup (List.map fst bs) ->
    List.fold_left
      (fun cols kv =>
         List.map (fun c => if String.eqb (key c) (fst kv) then upd (snd kv) c else c) cols)
      bs cols
    = List.map (fun c => match assoc (key c) bs with Some v => upd v c | None => c end) cols.
Proof.
  intros Hkey bs. induction bs as [|kv bs IH]; intros cols Hnd; simpl.
  - symmetry. apply List.map_id.
  - inversion Hnd as [|? ? Hk Hnd']; subst.
    rewrite IH by assumption. rewrite List.map_map.
    apply List.map_ext. intros c.
    destruct (String.eqb_spec (key c) (fst kv)) as [E|E]; [|reflexivity].
    rewrite Hkey, E. now rewrite assoc_None.
Qed.

Lemma numeric_part_In (k : string) (xs : list (option Q)) (cols : list Series) :
  List.In (k, xs) (numeric_part cols)
  <-> exists c, List.In c cols /\ name c = k /\ vals c = Numeric xs.
Proof.
  unfold numeric_part. rewrite List.in_flat_map. split.
  - intros (c & Hc & Hin). exists c. destruct (vals c) as [ys|ys]; simpl in Hin.
    + destruct Hin as [E|[]]. inversion E; subst. auto.
    + contradiction.
  - intros (c & Hc & <- & Hv). exists c. split; [exact Hc|].
    rewrite Hv. now left.
Qed.

Lemma numeric_part_keys (cols : list Series) :
  List.map fst (numeric_part cols) = List.map name (List.filter is_number cols).
Proof.
  induction cols as [|c cols IH]; simpl; trivial.
  unfold is_number. destruct (vals c); simpl; now rewrite IH.
Qed.

Lemma NoDup_filter_names (cols : list Series) :
  List.NoDup (List.map name cols) ->
  List.NoDup (List.map name (List.filter is_number cols)).
Proof.
  induction cols as [|c cols IH]; simpl; intros Hnd; [constructor|].
  inversion Hnd as [|? ? Hk Hnd']; subst.
  destruct (is_number c); simpl; [constructor|]; auto.
  intros Hin. apply Hk.
  apply List.in_map_iff in Hin as (c' & E & Hin).
  apply List.filter_In in Hin as [Hin _].
  apply List.in_map_iff. eauto.
Qed.

Lemma names_inj (cols : list Series) (c c' : Series) :
  List.NoDup (List.map name cols) ->
  List.In c cols -> List.In c' cols -> name c = name c' -> c = c'.
Proof.
  induction cols as [|c0 cols IH]; simpl; intros Hnd Hc Hc' E; [contradiction|].
  inversion Hnd as [|? ? Hk Hnd']; subst.
  destruct Hc as [->|Hc], Hc' as [->|Hc']; trivial.
  - exfalso. apply Hk. rewrite E. now apply List.in_map.
  - exfalso. apply Hk. rewrite <- E. now apply List.in_map.
  - auto.
Qed.

(** [df[numeric_columns]] is the numeric part when labels are unique. *)
Lemma getitem_numeric (df : DataFrame) :
  List.NoDup (names df) ->
  getitem df (select_dtypes_number df)
  = {| nindex := index df; ncolumns := numeric_part (columns df) |}.
Proof.
  intros Hnd. unfold getitem, select_dtypes_number. f_equal.
  assert (Hone : forall c xs, List.In c (columns df) -> vals c = Numeric xs ->
            List.flat_map
              (fun c' => match vals c' with
                         | Numeric xs' =>
                             if String.eqb (name c') (name c) then [(name c, xs')] else []
                         | Object _ => []
                         end) (columns df)
            = [(name c, xs)]).
  { unfold names in Hnd. revert Hnd. generalize (columns df) as cols.
    induction cols as [|c0 cols IH]; intros Hnd c xs Hc Hv; [contradiction|].
    simpl in Hnd. inversion Hnd as [|? ? Hk Hnd']; subst.
    assert (Hnone : forall k, ~ List.In k (List.map name cols) ->
              List.flat_map
                (fun c' => match vals c' with
                           | Numeric xs' => if String.eqb (name c') k then [(k, xs')] else []
                           | Object _ => []
                           end) cols = []).
    { clear. intros k. induction cols as [|c1 cols IH]; simpl; intros H; trivial.
      rewrite IH by tauto.
      destruct (vals c1); trivial.
      destruct (String.eqb_spec (name c1) k); trivial. exfalso; apply H; now left. }
    simpl. destruct Hc as [->|Hc].
    - rewrite Hv, String.eqb_refl, (Hnone _ Hk). reflexivity.
    - rewrite (IH Hnd' c xs Hc Hv).
      destruct (vals c0); trivial.
      destruct (String.eqb_spec (name c0) (name c)) as [E|E]; trivial.
      exfalso. apply Hk. rewrite E. now apply List.in_map. }
  assert (Hsub : forall l, (forall c, List.In c l -> List.In c (columns df)) ->
            List.flat_map
              (fun k => List.flat_map
                 (fun c => match vals c with
                           | Numeric xs => if String.eqb (name c) k then [(k, xs)] else []
                           | Object _ => []
                           end) (columns df))
              (List.map name (List.filter is_number l))
            = numeric_part l).
  { induction l as [|c l IH]; intros Hl; simpl; trivial.
    unfold is_number at 1. destruct (vals c) as [xs|xs] eqn:Hv; simpl.
    - rewrite (Hone c xs) by (auto using List.in_eq).
      rewrite IH by (intros; apply Hl; now right). reflexivity.
    - apply IH. intros; apply Hl; now right. }
  now apply Hsub.
Qed.

Lemma NoDup_numeric_keys (cols : list Series) :
  List.NoDup (List.map name cols) -> List.NoDup (List.map fst (numeric_part cols)).
Proof. intros H. rewrite numeric_part_keys. now apply NoDup_filter_names. Qed.

(** Filling a numeric frame with one statistic per label fills every column
    with its own statistic. *)
Lemma fillna_series_statistic (stat : list (option Q) -> option Q) (f : NumFrame) :
  List.NoDup (List.map fst (ncolumns f)) ->
  fillna_series f (List.map (fun kx => (fst kx, stat (snd kx))) (ncolumns f))
  = {| nindex := nindex f;
       ncolumns := List.map (fun kx => (fst kx, fill_num (stat (snd kx)) (snd kx)))
                            (ncolumns f) |}.
Proof.
  intros Hnd. unfold fillna_series. f_equal.
  rewrite (fold_left_update fst
             (fun (v : option Q) (kx : string * list (option Q)) =>
                (fst kx, fill_num v (snd kx)))).
  - apply List.map_ext_in. intros [k xs] Hin. simpl.
    rewrite (assoc_In k (stat xs)); trivial.
    + now rewrite List.map_map.
    + apply List.in_map_iff. now exists (k, xs).
  - reflexivity.
  - now rewrite List.map_map.
Qed.

(** Assigning the numeric columns back, label by label. *)
Lemma setitem_numeric (g : list (option Q) -> list (option Q)) (df : DataFrame) :
  List.NoDup (names df) ->
  setitem df (select_dtypes_number df)
    {| nindex := index df;
       ncolumns := List.map (fun kx => (fst kx, g (snd kx))) (numeric_part (columns df)) |}
  = {| index := index df;
       columns :=
         List.map (fun c => match vals c with
                            | Numeric xs => {| name := name c; vals := Numeric (g xs) |}
                            | Object _ => c
                            end) (columns df) |}.
Proof.
  intros Hnd. unfold setitem, select_dtypes_number. cbn [ncolumns]. f_equal.
  rewrite <- numeric_part_keys.
  set (bs := List.map (fun kx : string * list (option Q) => (fst kx, (fst kx, g (snd kx))))
                      (numeric_part (columns df))).
  assert (Hbs : List.combine (List.map fst (numeric_part (columns df)))
                  (List.map (fun kx => (fst kx, g (snd kx))) (numeric_part (columns df)))
                = bs).
  { subst bs. induction (numeric_part (columns df)) as [|kx l IH]; simpl; trivial.
    now rewrite IH. }
  rewrite Hbs.
  (* every assignment finds its label, so it updates in place *)
  assert (Hstep : forall (l : list (string * (string * list (option Q)))) cols,
            (forall kv, List.In kv l -> List.In (fst kv) (List.map name cols)) ->
            List.fold_left (fun cols kv => setitem_column (fst kv) (snd (snd kv)) cols) l cols
            = List.fold_left
                (fun cols kv =>
                   List.map (fun c => if String.eqb (name c) (fst kv)
                                      then {| name := name c; vals := Numeric (snd (snd kv)) |}
                                      else c) cols) l cols).
  { induction l as [|kv l IH]; intros cols Hl; simpl; trivial.
    assert (E : setitem_column (fst kv) (snd (snd kv)) cols
                = List.map (fun c => if String.eqb (name c) (fst kv)
                                     then {| name := name c; vals := Numeric (snd (snd kv)) |}
                                     else c) cols).
    { unfold setitem_column.
      assert (existsb (fun c => String.eqb (name c) (fst kv)) cols = true) as ->; trivial.
      apply List.existsb_exists.
      specialize (Hl kv (or_introl eq_refl)).
      apply List.in_map_iff in Hl as (c & Hc & Hin).
      exists c. split; trivial. rewrite Hc. apply String.eqb_refl. }
    rewrite E. apply IH. intros kv' Hin.
    rewrite List.map_map.
    rewrite (List.map_ext _ name); [apply Hl; now right|].
    intros c. now destruct (String.eqb (name c) (fst kv)). }
  rewrite Hstep.
  - rewrite (fold_left_update name
               (fun (v : string * list (option Q)) (c : Series) =>
                  {| name := name c; vals := Numeric (snd v) |})).
    + apply List.map_ext_in. intros c Hc.
      destruct (vals c) as [xs|xs] eqn:Hv.
      * rewrite (assoc_In (name c) (name c, g xs)); trivial.
        -- subst bs. rewrite List.map_map. simpl. now apply NoDup_numeric_keys.
        -- subst bs. apply List.in_map_iff. exists (name c, xs). split; trivial.
           apply numeric_part_In. eauto.
      * rewrite assoc_None; trivial.
        subst bs. rewrite List.map_map. simpl. intros Hin.
        apply List.in_map_iff in Hin as ([k ys] & Hk & Hin). simpl in Hk. subst k.
        apply numeric_part_In in Hin as (c' & Hc' & Hn & Hv').
        assert (c' = c) by (eapply names_inj; eauto). subst c'. congruence.
    + reflexivity.
    + subst bs. rewrite List.map_map. simpl. now apply NoDup_numeric_keys.
  - intros kv Hin. subst bs.
    apply List.in_map_iff in Hin as ([k ys] & <- & Hin). simpl.
    apply numeric_part_In in Hin as (c & Hc & <- & _). now apply List.in_map.
Qed.

(** The three statements of the [mean] and [median] branches together:
    every numeric column is filled with its own statistic and nothing else
    changes. *)
Lemma fill_statistic (stat : list (option Q) -> option Q) (df : DataFrame) :
  unique_names df = true ->
  let numeric_columns := select_dtypes_number df in
  setitem df numeric_columns
    (fillna_series (getitem df numeric_columns)
       (List.map (fun kx => (fst kx, stat (snd kx)))
                 (ncolumns (getitem df numeric_columns))))
  = {| index := index df; columns := List.map (fill_numeric stat) (columns df) |}.
Proof.
  intros Hu numeric_columns. subst numeric_columns.
  apply distinct_NoDup in Hu.
  rewrite getitem_numeric by assumption.
  rewrite fillna_series_statistic by (now apply NoDup_numeric_keys).
  cbn [nindex ncolumns].
  rewrite (setitem_numeric (fun xs => fill_num (stat xs) xs)) by assumption.
  reflexivity.
Qed.

(** ** Filling with the frame of modes *)

Lemma mode_frame (f : NumFrame) :
  mode f
  = {| nindex := List.map Z.of_nat (List.seq 0 (mode_rows (ncolumns f)));
       ncolumns :=
         List.map (fun kx => (fst kx, mode_column (mode_rows (ncolumns f))
                                                  (mode_of (snd kx))))
                  (ncolumns f) |}.
Proof.
  unfold mode, mode_rows, mode_column. rewrite !List.map_map. reflexivity.
Qed.

Lemma find_own_key {V W : Type} (h : V -> W) (l : list (string * V)) (kx : string * V) :
  List.NoDup (List.map fst l) ->
  List.In kx l ->
  List.find (fun kv => String.eqb (fst kv) (fst kx))
            (List.map (fun kx => (fst kx, h (snd kx))) l)
  = Some (fst kx, h (snd kx)).
Proof.
  induction l as [|kv l IH]; simpl; intros Hnd Hin; [contradiction|].
  inversion Hnd as [|? ? Hk Hnd']; subst.
  destruct Hin as [->|Hin].
  - now rewrite String.eqb_refl.
  - destruct (String.eqb_spec (fst kv) (fst kx)) as [E|E]; [|auto].
    exfalso. apply Hk. rewrite E. now apply List.in_map.
Qed.

(** The three statements of the [mode] branch together: the frame of modes
    is aligned on the row labels, not broadcast along the rows. *)
Lemma fill_mode_frame (df : DataFrame) :
  unique_names df = true ->
  (let numeric_columns := select_dtypes_number df in
   setitem df numeric_columns
     (fillna_frame (getitem df numeric_columns) (mode (getitem df numeric_columns))))
  = {| index := index df;
       columns :=
         List.map (mode_filled (index df) (mode_rows (numeric_part (columns df))))
                  (columns df) |}.
Proof.
  intros Hu. cbv zeta. apply distinct_NoDup in Hu.
  rewrite getitem_numeric by assumption.
  rewrite mode_frame. unfold fillna_frame. cbn [nindex ncolumns].
  set (n := mode_rows (numeric_part (columns df))).
  rewrite (List.map_ext_in _
             (fun kx => (fst kx,
                         fill_aligned (index df) (snd kx)
                           (fun l => at_label l (List.map Z.of_nat (List.seq 0 n))
                                              (mode_column n (mode_of (snd kx))))))).
  - rewrite (setitem_numeric
               (fun xs => fill_aligned (index df) xs
                            (fun l => at_label l (List.map Z.of_nat (List.seq 0 n))
                                               (mode_column n (mode_of xs)))))
      by assumption.
    reflexivity.
  - intros kx Hin.
    rewrite (find_own_key (fun xs => mode_column n (mode_of xs)))
      by (auto using NoDup_numeric_keys).
    reflexivity.
Qed.

(** A row label outside [0 .. n-1] finds nothing in a frame of [n] rows. *)
Lemma at_label_outside (l : Z) (n : nat) (vs : list (option Q)) :
  l < 0 \/ Z.of_nat n <= l ->
  at_label l (List.map Z.of_nat (List.seq 0 n)) vs = None.
Proof.
  intros Hl.
  assert (H : forall a, (forall i, (a <= i < a + n)%nat -> l <> Z.of_nat i) ->
                        at_label l (List.map Z.of_nat (List.seq a n)) vs = None).
  { revert vs. induction n as [|n IH]; intros vs a Ha; simpl; trivial.
    destruct vs as [|v vs]; trivial.
    destruct (Z.eqb_spec l (Z.of_nat a)) as [E|E].
    - exfalso. apply (Ha a); [lia | exact E].
    - apply IH; [lia|]. intros i Hi. apply Ha. lia. }
  apply H. intros i Hi. lia.
Qed.

(* ===================================================================== *)
(** * Running the methods *)
(* ===================================================================== *)


Ltac run_py :=
  unfold copy, bind, logging, deref, new, update, ret, call, raise;
  cbn [heap log].

Lemma returns_unique (m : py ref) (s : state) (a b : DataFrame) :
  returns m s a -> returns m s b -> a = b.
Proof.
  intros (r & s' & E & H) (r' & s'' & E' & H').
  rewrite E in E'. inversion E'; subst. congruence.
Qed.

Lemma fresh_None (h : gmap positive DataFrame) : h !! fresh (dom h) = None.
Proof. apply not_elem_of_dom, is_fresh. Qed.

(** What [handle] of the fill strategy does for each method, as one
    equation per branch. *)
Section Handle.
Variables (s : state) (df : ref) (D : DataFrame).
Hypothesis Hdf : heap s !! df = Some D.

Let r := fresh (dom (heap s)).

Lemma handle_mean (v : option scalar) :
  assigned s df "mean" v
    (let numeric_columns := select_dtypes_number D in
     setitem D numeric_columns
       (fillna_series (getitem D numeric_columns) (mean (getitem D numeric_columns)))).
Proof.
  unfold assigned, FillMissingValuesStrategy.handle, fill_with.
  cbn [FillMissingValuesStrategy.method].
  change (String.eqb "mean" "mean") with true. cbv iota.
  run_py. rewrite Hdf. cbn [heap log]. rewrite lookup_insert_eq. cbn [heap log].
  now rewrite insert_insert_eq.
Qed.

Lemma handle_median (v : option scalar) :
  assigned s df "median" v
    (let numeric_columns := select_dtypes_number D in
     setitem D numeric_columns
       (fillna_series (getitem D numeric_columns) (median (getitem D numeric_columns)))).
Proof.
  unfold assigned, FillMissingValuesStrategy.handle, fill_with.
  cbn [FillMissingValuesStrategy.method].
  change (String.eqb "median" "mean") with false.
  change (String.eqb "median" "median") with true. cbv iota.
  run_py. rewrite Hdf. cbn [heap log]. rewrite lookup_insert_eq. cbn [heap log].
  now rewrite insert_insert_eq.
Qed.

Lemma handle_mode (v : option scalar) :
  assigned s df "mode" v
    (let numeric_columns := select_dtypes_number D in
     setitem D numeric_columns
       (fillna_frame (getitem D numeric_columns) (mode (getitem D numeric_columns)))).
Proof.
  unfold assigned, FillMissingValuesStrategy.handle, fill_with.
  cbn [FillMissingValuesStrategy.method].
  change (String.eqb "mode" "mean") with false.
  change (String.eqb "mode" "median") with false.
  change (String.eqb "mode" "mode") with true. cbv iota.
  run_py. rewrite Hdf. cbn [heap log]. rewrite lookup_insert_eq. cbn [heap log].
  now rewrite insert_insert_eq.
Qed.

(** The [constant] branch rebinds [df_cleaned] to a second new object, or
    raises when no value is configured. *)
Lemma handle_constant (v : option scalar) :
  FillMissingValuesStrategy.handle (fill_with "constant" v) df s
  = let s1 := {| heap := <[r := D]> (heap s);
                 log := log s ++ [(INFO, FillingMissingValues "constant")] |} in
    match fillna D v with
    | inl e => (Raise e, s1)
    | inr out =>
        let r' := fresh (dom (heap s1)) in
        (Return r',
         {| heap := <[r' := out]> (heap s1);
            log := log s1 ++ [(INFO, MissingValuesFilled)] |})
    end.
Proof.
  unfold FillMissingValuesStrategy.handle, fill_with.
  cbn [FillMissingValuesStrategy.method FillMissingValuesStrategy.fill_value].
  change (String.eqb "constant" "mean") with false.
  change (String.eqb "constant" "median") with false.
  change (String.eqb "constant" "mode") with false.
  change (String.eqb "constant" "constant") with true. cbv iota.
  run_py. rewrite Hdf. cbn [heap log]. rewrite lookup_insert_eq. cbn [heap log].
  destruct (fillna D v); reflexivity.
Qed.

(** Any other method: no branch is taken and the copy is returned. *)
Lemma handle_other (m : string) (v : option scalar) :
  FillMissingValuesStrategy.allowed m = false ->
  assigned s df m v D.
Proof.
  intros Hm. unfold FillMissingValuesStrategy.allowed in Hm. simpl in Hm.
  repeat (apply orb_false_elim in Hm as [? Hm]).
  unfold assigned, FillMissingValuesStrategy.handle, fill_with.
  cbn [FillMissingValuesStrategy.method].
  repeat match goal with H : String.eqb m _ = false |- _ => rewrite H; clear H end.
  run_py. rewrite Hdf. reflexivity.
Qed.

(** [handle] of the drop strategy. *)
Lemma handle_drop (a : Z) (k : option Z) :
  DropMissingValuesStrategy.handle (drop_with a k) df s
  = let s1 := {| heap := heap s;
                 log := log s ++ [(INFO, DroppingMissingValues a k)] |} in
    match dropna a k D with
    | inl e => (Raise e, s1)
    | inr out =>
        (Return r,
         {| heap := <[r := out]> (heap s);
            log := log s1 ++ [(INFO, MissingValuesDropped)] |})
    end.
Proof.
  unfold DropMissingValuesStrategy.handle, drop_with.
  cbn [DropMissingValuesStrategy.axis DropMissingValuesStrategy.thresh].
  run_py. rewrite Hdf.
  destruct (dropna a k D); reflexivity.
Qed.
End Handle.

(* ===================================================================== *)
(** * Properties of the fill strategy *)
(* ===================================================================== *)





Lemma cells_fillna_values (v : scalar) (x : values) :
  cells_of (fillna_values v x) = List.map (fill_cell (stored_as x v)) (cells_of x).
Proof.
  destruct x as [xs|xs]; [|destruct v; reflexivity].
  assert (Hall : forallb notna xs = true ->
                 List.map (option_map SNum) xs
                 = List.map (fill_cell v) (List.map (option_map SNum) xs)).
  { intros H. rewrite List.map_map. apply List.map_ext_in. intros x Hx.
    rewrite List.forallb_forall in H. specialize (H x Hx). now destruct x. }
  destruct v; simpl.
  - rewrite !List.map_map. apply List.map_ext. now intros [].
  - destruct (forallb notna xs) eqn:E; simpl; auto.
  - destruct (forallb notna xs) eqn:E; simpl; auto.
Qed.



Lemma returns_constant (s : state) (df : ref) (D : DataFrame) (v : scalar) :
  heap s !! df = Some D ->
  returns (FillMissingValuesStrategy.handle (fill_with "constant" (Some v)) df) s
          (constant_filled v D).
Proof.
  intros Hdf. unfold returns.
  rewrite (handle_constant s df D Hdf). cbn [fillna]. cbv zeta.
  eexists _, _. split; [reflexivity|].
  cbn [heap]. apply lookup_insert_eq.
Qed.






(* ===================================================================== *)
(** * Every call of [handle], whatever the strategy *)
(* ===================================================================== *)

Lemma bind_ret_r {A : Type} (m : py A) (s : state) : bind m ret s = m s.
Proof. unfold bind, ret. now destruct (m s) as [[a|e] s']. Qed.

Lemma handle_fill_dangling (self : FillMissingValuesStrategy.t) (df : ref) (s : state) :
  heap s !! df = None ->
  FillMissingValuesStrategy.handle self df s
  = (Raise InvalidReference,
     {| heap := heap s;
        log := log s ++ [(INFO, FillingMissingValues
                                  (FillMissingValuesStrategy.method self))] |}).
Proof.
  intros H. unfold FillMissingValuesStrategy.handle. run_py. now rewrite H.
Qed.

Lemma handle_drop_dangling (self : DropMissingValuesStrategy.t) (df : ref) (s : state) :
  heap s !! df = None ->
  DropMissingValuesStrategy.handle self df s
  = (Raise InvalidReference,
     {| heap := heap s;
        log := log s ++ [(INFO, DroppingMissingValues
                                  (DropMissingValuesStrategy.axis self)
                                  (DropMissingValuesStrategy.thresh self))] |}).
Proof.
  intros H. unfold DropMissingValuesStrategy.handle. run_py. now rewrite H.
Qed.

Lemma handle_fill_result (self : FillMissingValuesStrategy.t)
    (s : state) (df : ref) (D : DataFrame) :
  heap s !! df = Some D ->
  fill_result s D (FillMissingValuesStrategy.handle self df s).
Proof.
  intros Hdf. destruct self as [m v].
  change {| FillMissingValuesStrategy.method := m;
            FillMissingValuesStrategy.fill_value := v |} with (fill_with m v).
  destruct (String.eqb_spec m "mean") as [->|Hmean].
  { rewrite (handle_mean s df D Hdf). constructor. }
  destruct (String.eqb_spec m "median") as [->|Hmedian].
  { rewrite (handle_median s df D Hdf). constructor. }
  destruct (String.eqb_spec m "mode") as [->|Hmode].
  { rewrite (handle_mode s df D Hdf). constructor. }
  destruct (String.eqb_spec m "constant") as [->|Hconstant].
  { rewrite (handle_constant s df D Hdf). destruct v as [v|]; cbn [fillna]; cbv zeta.
    - apply fill_rebound.
    - apply fill_raised. }
  rewrite (handle_other s df D Hdf).
  - constructor.
  - unfold FillMissingValuesStrategy.allowed. simpl.
    apply String.eqb_neq in Hmean, Hmedian, Hmode, Hconstant.
    now rewrite Hmean, Hmedian, Hmode, Hconstant.
Qed.

(** What every call of [handle] does to the store and which exceptions it
    can raise. *)
Lemma handle_cases (strategy : MissingValueHandlingStrategy.t)
    (s : state) (df : ref) (o : outcome ref) (s' : state) :
  MissingValueHandlingStrategy.handle strategy df s = (o, s') ->
  heap s ⊆ heap s'
  /\ match o with
     | Return r => heap s !! r = None /\ is_Some (heap s' !! r)
     | Raise e => forall name, e <> UnsupportedStrategy name
     end.
Proof.
  intros Hrun. destruct (heap s !! df) as [D|] eqn:Hdf.
  - destruct strategy as [self|self]; cbn [MissingValueHandlingStrategy.handle] in Hrun.
    + destruct self as [a k].
      change {| DropMissingValuesStrategy.axis := a;
                DropMissingValuesStrategy.thresh := k |} with (drop_with a k) in Hrun.
      rewrite (handle_drop s df D Hdf) in Hrun. cbv zeta in Hrun.
      destruct (dropna a k D) as [e|out] eqn:Edrop; inversion Hrun; subst; cbn [heap].
      * split; [reflexivity|]. intros name. unfold dropna in Edrop.
        destruct (a =? 0); [discriminate|]. destruct (a =? 1); [discriminate|].
        inversion Edrop. discriminate.
      * pose proof (fresh_None (heap s)) as Hfresh.
        split; [now apply insert_subseteq|].
        split; [exact Hfresh | rewrite lookup_insert_eq; eauto].
    + pose proof (handle_fill_result self s df D Hdf) as Hres.
      rewrite Hrun in Hres.
      pose proof (fresh_None (heap s)) as Hfresh.
      inversion Hres; subst; cbn [heap].
      * split; [now apply insert_subseteq|].
        split; [exact Hfresh | rewrite lookup_insert_eq; eauto].
      * pose proof (fresh_None (<[fresh (dom (heap s)) := D]> (heap s))) as Hfresh'.
        assert (Hsub : heap s ⊆ <[fresh (dom (heap s)) := D]> (heap s))
          by now apply insert_subseteq.
        split; [etransitivity; [exact Hsub | now apply insert_subseteq]|].
        split; [eapply lookup_weaken_None; eauto | rewrite lookup_insert_eq; eauto].
      * split; [now apply insert_subseteq | discriminate].
  - destruct strategy as [self|self]; cbn [MissingValueHandlingStrategy.handle] in Hrun.
    + rewrite (handle_drop_dangling self df s Hdf) in Hrun.
      inversion Hrun; subst; cbn [heap]. split; [reflexivity | discriminate].
    + rewrite (handle_fill_dangling self df s Hdf) in Hrun.
      inversion Hrun; subst; cbn [heap]. split; [reflexivity | discriminate].
Qed.

(** C9.  Whatever the strategy and its parameters, after [handle] the input
    reference denotes the dataframe it denoted before, every object that
    existed is unchanged, and a returned reference is a new object, not the
    input. *)
Theorem handle_leaves_input_unchanged
    (strategy : MissingValueHandlingStrategy.t)
    (s : state) (df : ref) (D : DataFrame) (o : outcome ref) (s' : state) :
  heap s !! df = Some D ->
  MissingValueHandlingStrategy.handle strategy df s = (o, s') ->
  heap s' !! df = Some D
  /\ heap s ⊆ heap s'
  /\ forall r, o = Return r -> r <> df /\ heap s !! r = None.
Proof.
  intros Hdf Hrun. apply handle_cases in Hrun as [Hsub Ho].
  split; [|split].
  - eapply lookup_weaken; eauto.
  - exact Hsub.
  - intros r ->. destruct Ho as [Hnew _]. split; [congruence | exact Hnew].
Qed.

Lemma handle_leaves_input_unchanged_witness :
  let run := MissingValueHandlingStrategy.handle
               (MissingValueHandlingStrategy.Fill (fill_with "mean" None))
               1%positive scenario_state in
  heap (snd run) !! 1%positive = Some scenario
  /\ heap scenario_state ⊆ heap (snd run)
  /\ forall r, fst run = Return r -> r <> 1%positive /\ heap scenario_state !! r = None.
Proof.
  intros run.
  apply (handle_leaves_input_unchanged
           (MissingValueHandlingStrategy.Fill (fill_with "mean" None))
           scenario_state 1%positive scenario (fst run) (snd run)).
  - reflexivity.
  - apply surjective_pairing.
Defined.

(** C3.  For a method name outside the allowed ones, the constructor only
    writes one log record (the state is otherwise as before) and stores the
    name as given, not ["mean"]; [handle] of that strategy then returns a
    copy of the input, and so not the mean fill wherever the mean fill
    would change the input. *)
Theorem invalid_method_is_stored_and_ignored
    (m : string) (v : option scalar) (s : state) (df : ref) (D : DataFrame) :
  FillMissingValuesStrategy.allowed m = false ->
  heap s !! df = Some D ->
  let self := {| FillMissingValuesStrategy.method := m;
                 FillMissingValuesStrategy.fill_value := v |} in
  FillMissingValuesStrategy.__init__ (Some m) v s
  = (Return self,
     {| heap := heap s; log := log s ++ [(ERROR, InvalidMethod m)] |})
  /\ FillMissingValuesStrategy.method self <> "mean"
  /\ returns (FillMissingValuesStrategy.handle self df) s D
  /\ (mean_filled_frame D <> D ->
      ~ returns (FillMissingValuesStrategy.handle self df) s (mean_filled_frame D)).
Proof.
  intros Hm Hdf self.
  assert (Hret : returns (FillMissingValuesStrategy.handle self df) s D).
  { unfold returns. eexists _, _.
    split; [apply (handle_other s df D Hdf m v Hm)|].
    cbn [heap]. apply lookup_insert_eq. }
  split; [|split; [|split]].
  - unfold FillMissingValuesStrategy.__init__. cbv beta iota zeta delta [from_option id].
    rewrite Hm. reflexivity.
  - cbn. intros ->. discriminate.
  - exact Hret.
  - intros Hne Hmean. apply Hne. eapply returns_unique; eauto.
Qed.

Lemma invalid_method_witness :
  let self := {| FillMissingValuesStrategy.method := "average";
                 FillMissingValuesStrategy.fill_value := None |} in
  FillMissingValuesStrategy.__init__ (Some "average") None scenario_state
  = (Return self,
     {| heap := heap scenario_state;
        log := log scenario_state ++ [(ERROR, InvalidMethod "average")] |})
  /\ FillMissingValuesStrategy.method self <> "mean"
  /\ returns (FillMissingValuesStrategy.handle self 1%positive) scenario_state scenario
  /\ (mean_filled_frame scenario <> scenario ->
      ~ returns (FillMissingValuesStrategy.handle self 1%positive) scenario_state
          (mean_filled_frame scenario)).
Proof.
  apply (invalid_method_is_stored_and_ignored
           "average" None scenario_state 1%positive scenario); reflexivity.
Defined.

(* ===================================================================== *)
(** * Properties of the drop strategy *)
(* ===================================================================== *)

(** C5, on the scenario frame.  The strategy built with [axis=0] and no
    threshold passes [thresh=None] on to [dropna], which then keeps no row:
    [handle] returns the two columns without a cell, although the row
    labelled 1 has no absent cell. *)
Theorem drop_rows_without_threshold_drops_every_row :
  returns (DropMissingValuesStrategy.handle (drop_with 0 None) 1%positive)
          scenario_state
          {| index := [];
             columns := [ {| name := "A"; vals := Numeric [] |};
                          {| name := "B"; vals := Numeric [] |} ] |}
  /\ List.filter (fun r => forallb notna (snd r)) (rows scenario)
     = [(1, [Some (SNum (2#1)); Some (SNum (4#1))])].
Proof.
  split; [|reflexivity].
  unfold returns.
  rewrite (handle_drop scenario_state 1%positive scenario) by reflexivity.
  rewrite (proj1 (dropna_none scenario)). cbv beta iota zeta.
  eexists _, _. split; [reflexivity|]. cbn [heap]. apply lookup_insert_eq.
Qed.

(** C6.  Along the columns and with threshold [k], [handle] returns a new
    dataframe with the row labels of the input and exactly the columns of
    the input that have at least [k] present cells, in the input order and
    unchanged.  This holds for every integer [k], the non-negative ones in
    particular. *)
Theorem drop_columns_keeps_filled_columns
    (s : state) (df : ref) (D : DataFrame) (k : Z) :
  heap s !! df = Some D ->
  returns (DropMissingValuesStrategy.handle (drop_with 1 (Some k)) df) s
          {| index := index D;
             columns := List.filter (fun c => k <=? count (cells c)) (columns D) |}.
Proof.
  intros Hdf.
  unfold returns. rewrite (handle_drop s df D Hdf), dropna_columns_thresh. cbv zeta.
  eexists _, _. split; [reflexivity|]. cbn [heap]. apply lookup_insert_eq.
Qed.

Lemma drop_columns_witness :
  returns (DropMissingValuesStrategy.handle (drop_with 1 (Some 2)) 1%positive)
          {| heap := {[ 1%positive := sparse ]}; log := [] |}
          {| index := [0; 1; 2];
             columns :=
               [ {| name := "A"; vals := Numeric [Some (1#1)%Q; Some (2#1)%Q; None] |};
                 {| name := "C";
                    vals := Numeric [Some (3#1)%Q; Some (4#1)%Q; Some (5#1)%Q] |} ] |}.
Proof.
  apply (drop_columns_keeps_filled_columns
           {| heap := {[ 1%positive := sparse ]}; log := [] |} 1%positive sparse 2).
  reflexivity.
Defined.

(* ===================================================================== *)
(** * Properties of the pipeline step *)
(* ===================================================================== *)

(** The step, branch by branch: it builds the strategy from the name alone
    and calls [handle] after one more log record. *)
Lemma step_dispatch (strategy : string) (data : ref) (s : state) :
  handle_missing_values_step data (Some strategy) s
  = let s1 := {| heap := heap s; log := log s ++ [(INFO, ExecutingStrategy)] |} in
    if String.eqb strategy "drop" then
      MissingValueHandlingStrategy.handle
        (MissingValueHandlingStrategy.Drop (drop_with 0 None)) data s1
    else if existsb (String.eqb strategy) ["mean"; "median"; "mode"; "constant"] then
      MissingValueHandlingStrategy.handle
        (MissingValueHandlingStrategy.Fill (fill_with strategy None)) data s1
    else (Raise (UnsupportedStrategy strategy), s).
Proof.
  unfold handle_missing_values_step, MissingValueHandler.handle_missing_values,
    MissingValueHandler.__init__, DropMissingValuesStrategy.__init__,
    FillMissingValuesStrategy.__init__, drop_with, fill_with.
  cbv beta iota zeta delta [from_option id].
  destruct (String.eqb strategy "drop") eqn:Edrop.
  - unfold bind, ret, logging. cbn [MissingValueHandler._strategy].
    match goal with
    | |- context [MissingValueHandlingStrategy.handle ?a ?b ?c] =>
        destruct (MissingValueHandlingStrategy.handle a b c) as [[x|e] s']
    end; reflexivity.
  - unfold FillMissingValuesStrategy.allowed, FillMissingValuesStrategy.ALLOWED_METHODS.
    destruct (existsb (String.eqb strategy) ["mean"; "median"; "mode"; "constant"])
      eqn:Efill.
    + unfold bind, ret, logging. cbn [MissingValueHandler._strategy].
      match goal with
      | |- context [MissingValueHandlingStrategy.handle ?a ?b ?c] =>
          destruct (MissingValueHandlingStrategy.handle a b c) as [[x|e] s']
      end; reflexivity.
    + reflexivity.
Qed.

(** C7.  For a strategy name outside [strategy_names] the step raises the
    unsupported-strategy error and leaves the state as it was: no object is
    created or changed and nothing is logged.  For a name inside, whatever
    the step does, it does not raise that error. *)
Theorem step_rejects_unsupported_names (strategy : string) (data : ref) (s : state) :
  (existsb (String.eqb strategy) strategy_names = false ->
   handle_missing_values_step data (Some strategy) s
   = (Raise (UnsupportedStrategy strategy), s))
  /\ (existsb (String.eqb strategy) strategy_names = true ->
      forall name,
        fst (handle_missing_values_step data (Some strategy) s)
        <> Raise (UnsupportedStrategy name)).
Proof.
  rewrite step_dispatch. cbv zeta.
  unfold strategy_names. cbn [existsb].
  destruct (String.eqb strategy "drop") eqn:Edrop; cbn [orb].
  - split; [discriminate|]. intros _ name.
    destruct (MissingValueHandlingStrategy.handle _ data _) as [o s'] eqn:Erun.
    apply handle_cases in Erun as [_ Ho]. cbn [fst].
    destruct o as [r|e]; [discriminate|]. intros [= ->]. now apply (Ho name).
  - destruct (String.eqb strategy "mean" || _) eqn:Efill.
    + split; [discriminate|]. intros _ name.
      destruct (MissingValueHandlingStrategy.handle _ data _) as [o s'] eqn:Erun.
      apply handle_cases in Erun as [_ Ho]. cbn [fst].
      destruct o as [r|e]; [discriminate|]. intros [= ->]. now apply (Ho name).
    + split; [reflexivity | discriminate].
Qed.

Lemma step_rejects_unsupported_names_witness :
  handle_missing_values_step 1%positive (Some "interpolate") scenario_state
  = (Raise (UnsupportedStrategy "interpolate"), scenario_state)
  /\ forall name,
       fst (handle_missing_values_step 1%positive (Some "median") scenario_state)
       <> Raise (UnsupportedStrategy name).
Proof.
  split.
  - apply (step_rejects_unsupported_names "interpolate" 1%positive scenario_state).
    reflexivity.
  - apply (step_rejects_unsupported_names "median" 1%positive scenario_state).
    reflexivity.
Defined.

(** C10.  The step called with ["constant"] builds the fill strategy with
    no fill value: it yields the outcome and the objects that constructing
    [FillMissingValuesStrategy(method="constant")] with the default
    [fill_value=None] and calling its [handle] on the same dataframe yields
    (the step writes one more log record).  The step has two parameters,
    the dataframe and the strategy name, so a constant cannot be given. *)
Theorem step_constant_has_no_fill_value (data : ref) (s : state) :
  let step := handle_missing_values_step data (Some "constant") s in
  let direct :=
    (self <- FillMissingValuesStrategy.__init__ (Some "constant") None ;;
     FillMissingValuesStrategy.handle self data)%py s in
  fst step = fst direct /\ heap (snd step) = heap (snd direct).
Proof.
  intros step direct. subst step direct.
  rewrite step_dispatch. cbv zeta.
  change (String.eqb "constant" "drop") with false.
  change (existsb (String.eqb "constant") ["mean"; "median"; "mode"; "constant"])
    with true.
  cbv iota. cbn [MissingValueHandlingStrategy.handle].
  assert (Hdirect :
            (self <- FillMissingValuesStrategy.__init__ (Some "constant") None ;;
             FillMissingValuesStrategy.handle self data)%py s
            = FillMissingValuesStrategy.handle (fill_with "constant" None) data s)
    by reflexivity.
  rewrite Hdirect.
  destruct (heap s !! data) as [D|] eqn:Hdf.
  - rewrite (handle_constant s data D Hdf).
    rewrite (handle_constant _ data D) by exact Hdf.
    cbn [fillna]. cbv zeta. cbn [fst snd heap]. auto.
  - rewrite (handle_fill_dangling _ data s Hdf).
    rewrite (handle_fill_dangling _ data) by exact Hdf.
    cbn [fst snd heap]. auto.
Qed.

(** With the dataframe library as modelled, that call always fails: the
    step with ["constant"] raises for want of a fill value. *)
Lemma step_constant_raises (data : ref) (s : state) (D : DataFrame) :
  heap s !! data = Some D ->
  fst (handle_missing_values_step data (Some "constant") s) = Raise MustSpecifyFillValue.
Proof.
  intros Hdf. rewrite step_dispatch. cbv zeta.
  change (String.eqb "constant" "drop") with false.
  change (existsb (String.eqb "constant") ["mean"; "median"; "mode"; "constant"])
    with true.
  cbv iota. cbn [MissingValueHandlingStrategy.handle].
  rewrite (handle_constant _ data D) by exact Hdf. reflexivity.
Qed.

(* ===================================================================== *)
(** * The mode fill *)
(* ===================================================================== *)

(** With method [median], every numeric column is filled with its own
    median. *)
Lemma fill_median_returns (s : state) (df : ref) (D : DataFrame) (v : option scalar) :
  heap s !! df = Some D ->
  unique_names D = true ->
  returns (FillMissingValuesStrategy.handle (fill_with "median" v) df) s
          {| index := index D;
             columns := List.map (fill_numeric median_of) (columns D) |}.
Proof.
  intros Hdf Hu. unfold returns.
  eexists _, _. split; [apply (handle_median s df D Hdf v)|].
  cbn [heap]. rewrite lookup_insert_eq. f_equal.
  unfold median. now apply (fill_statistic median_of).
Qed.

(** With method [mode], an absent cell of a numeric column takes the cell
    of the frame of modes that has the same row label. *)
Lemma fill_mode_returns (s : state) (df : ref) (D : DataFrame) (v : option scalar) :
  heap s !! df = Some D ->
  unique_names D = true ->
  returns (FillMissingValuesStrategy.handle (fill_with "mode" v) df) s
          {| index := index D;
             columns :=
               List.map (mode_filled (index D) (mode_rows (numeric_part (columns D))))
                        (columns D) |}.
Proof.
  intros Hdf Hu. unfold returns.
  eexists _, _. split; [apply (handle_mode s df D Hdf v)|].
  cbn [heap]. rewrite lookup_insert_eq. f_equal. now apply fill_mode_frame.
Qed.

(** An absent cell whose row label is not a row label of the frame of modes
    stays absent. *)
Lemma fill_aligned_absent (other : Z -> option Q) (xs : list (option Q)) :
  forall (idx : list Z) (i : nat) (l : Z),
    List.nth_error idx i = Some l ->
    List.nth_error xs i = Some None ->
    other l = None ->
    List.nth_error (fill_aligned idx xs other) i = Some None.
Proof.
  induction xs as [|x xs IH]; intros idx i l Hl Hx Ho.
  - destruct i; discriminate.
  - destruct idx as [|l0 idx]; [destruct i; discriminate|].
    destruct i as [|i]; simpl in *.
    + inversion Hl; inversion Hx; subst. now rewrite Ho.
    + eapply IH; eauto.
Qed.

(** C4, on the frame [repeated].  The column has the single mode 1, the
    frame of modes has the one row labelled 0, and the absent cell is in
    the row labelled 2: [handle] with method [mode] returns the input
    as it is, the cell still absent.  On the scenario frame, where each
    column has two modes, the absent cell of row 0 gets the smallest mode
    of its column and the absent cell of row 2 stays absent. *)
Theorem mode_fill_depends_on_row_label :
  mode_of [Some (1#1)%Q; Some (1#1)%Q; None] = [(1#1)%Q]
  /\ returns (FillMissingValuesStrategy.handle (fill_with "mode" None) 1%positive)
             {| heap := {[ 1%positive := repeated ]}; log := [] |}
             repeated
  /\ returns (FillMissingValuesStrategy.handle (fill_with "mode" None) 1%positive)
             scenario_state
             {| index := [0; 1; 2];
                columns :=
                  [ {| name := "A"; vals := Numeric [Some (1#1)%Q; Some (2#1)%Q; None] |};
                    {| name := "B";
                       vals := Numeric [Some (4#1)%Q; Some (4#1)%Q; Some (6#1)%Q] |} ] |}.
Proof.
  split; [reflexivity|]. split.
  - unfold returns. eexists _, _. split.
    + apply (handle_mode {| heap := {[ 1%positive := repeated ]}; log := [] |}
                         1%positive repeated); reflexivity.
    + cbn [heap]. rewrite lookup_insert_eq. reflexivity.
  - unfold returns. eexists _, _. split.
    + apply (handle_mode scenario_state 1%positive scenario); reflexivity.
    + cbn [heap]. rewrite lookup_insert_eq. reflexivity.
Qed.

(* ===================================================================== *)
(** * Further properties of the drop strategy *)
(* ===================================================================== *)

(** Selecting rows by a test on the rows keeps the rows that pass it. *)
Lemma rows_loc_rows (p : Z * list cell -> bool) (df : DataFrame) :
  aligned df = true ->
  rows (loc_rows (List.map p (rows df)) df) = List.filter p (rows df).
Proof.
  intros Hal.
  assert (Hlen : length (List.map p (rows df)) = length (index df))
    by (rewrite List.length_map; apply rows_of_length).
  unfold rows at 1, loc_rows; simpl.
  rewrite List.map_map.
  rewrite (List.map_ext _ (fun c => select (List.map p (rows df)) (cells c)))
    by (intros c; apply cells_select).
  rewrite <- (List.map_map cells (select (List.map p (rows df)))).
  rewrite rows_of_select.
  - apply select_filter.
  - now rewrite Hlen.
  - rewrite Hlen. now apply aligned_Forall.
Qed.

Lemma names_loc_rows (mask : list bool) (df : DataFrame) :
  names (loc_rows mask df) = names df.
Proof. unfold names, loc_rows; simpl. now rewrite List.map_map. Qed.

Lemma returns_drop (s : state) (df : ref) (D out : DataFrame) (a : Z) (k : option Z) :
  heap s !! df = Some D ->
  dropna a k D = inr out ->
  returns (DropMissingValuesStrategy.handle (drop_with a k) df) s out.
Proof.
  intros Hdf Hdrop. unfold returns.
  rewrite (handle_drop s df D Hdf), Hdrop. cbv zeta.
  eexists _, _. split; [reflexivity|]. cbn [heap]. apply lookup_insert_eq.
Qed.

(** Along the rows and with threshold [k], [handle] returns exactly the rows
    of the input with at least [k] present cells, in the input order, under
    the input column labels. *)
Theorem drop_rows_keeps_rows_reaching_threshold
    (s : state) (df : ref) (D : DataFrame) (k : Z) :
  heap s !! df = Some D ->
  aligned D = true ->
  exists out,
    returns (DropMissingValuesStrategy.handle (drop_with 0 (Some k)) df) s out
    /\ rows out = List.filter (fun r => k <=? count (snd r)) (rows D)
    /\ names out = names D.
Proof.
  intros Hdf Hal.
  exists (loc_rows (List.map (fun r => k <=? count (snd r)) (rows D)) D).
  split; [|split].
  - apply (returns_drop s df D _ 0 (Some k) Hdf).
    unfold dropna. cbn [Z.eqb]. now rewrite List.map_map.
  - now apply rows_loc_rows.
  - apply names_loc_rows.
Qed.

Lemma drop_rows_threshold_witness :
  exists out,
    returns (DropMissingValuesStrategy.handle (drop_with 0 (Some 2)) 1%positive)
            sparse_state out
    /\ rows out
       = [ (0, [Some (SNum (1#1)); None; Some (SNum (3#1))]);
           (1, [Some (SNum (2#1)); Some (SStr "x"); Some (SNum (4#1))]) ]
    /\ names out = ["A"; "B"; "C"].
Proof.
  apply (drop_rows_keeps_rows_reaching_threshold sparse_state 1%positive sparse 2);
    reflexivity.
Defined.

(** Built without a threshold, the strategy keeps no label of its axis,
    whatever the dataframe: along the rows [handle] returns the input
    columns, labels and dtypes, without a row; along the columns it returns
    the input row labels without a column. *)
Theorem drop_without_threshold_keeps_no_label (s : state) (df : ref) (D : DataFrame) :
  heap s !! df = Some D ->
  (exists out,
     returns (DropMissingValuesStrategy.handle (drop_with 0 None) df) s out
     /\ index out = []
     /\ rows out = []
     /\ names out = names D
     /\ List.map is_number (columns out) = List.map is_number (columns D)
     /\ Forall (fun c => cells c = []) (columns out))
  /\ returns (DropMissingValuesStrategy.handle (drop_with 1 None) df) s
             {| index := index D; columns := [] |}.
Proof.
  intros Hdf. destruct (dropna_none D) as [Hrows Hcols]. split.
  - eexists. split; [apply (returns_drop s df D _ 0 None Hdf), Hrows|].
    cbn [index columns]. split; [reflexivity|]. split; [reflexivity|].
    split; [|split].
    + unfold names; cbn [columns]. now rewrite List.map_map.
    + rewrite List.map_map. apply List.map_ext. intros c.
      unfold is_number; cbn [vals]. now destruct (vals c).
    + apply List.Forall_forall. intros c Hc.
      apply List.in_map_iff in Hc as (c0 & <- & _).
      unfold cells; cbn [vals]. now destruct (vals c0).
  - apply (returns_drop s df D _ 1 None Hdf), Hcols.
Qed.

Lemma drop_without_threshold_witness :
  (exists out,
     returns (DropMissingValuesStrategy.handle (drop_with 0 None) 1%positive)
             sparse_state out
     /\ index out = []
     /\ rows out = []
     /\ names out = ["A"; "B"; "C"]
     /\ List.map is_number (columns out) = [true; false; true]
     /\ Forall (fun c => cells c = []) (columns out))
  /\ returns (DropMissingValuesStrategy.handle (drop_with 1 None) 1%positive)
             sparse_state
             {| index := [0; 1; 2]; columns := [] |}.
Proof.
  apply (drop_without_threshold_keeps_no_label sparse_state 1%positive sparse).
  reflexivity.
Defined.

(** An axis other than 0 and 1 makes [handle] raise after its first log
    record: no object is created and the second record is not written. *)
Theorem drop_rejects_unknown_axis
    (s : state) (df : ref) (D : DataFrame) (a : Z) (k : option Z) :
  heap s !! df = Some D ->
  a <> 0 -> a <> 1 ->
  DropMissingValuesStrategy.handle (drop_with a k) df s
  = (Raise (NoAxisNamed a),
     {| heap := heap s; log := log s ++ [(INFO, DroppingMissingValues a k)] |}).
Proof.
  intros Hdf H0 H1. rewrite (handle_drop s df D Hdf). cbv zeta.
  unfold dropna.
  apply Z.eqb_neq in H0, H1. now rewrite H0, H1.
Qed.

Lemma drop_rejects_unknown_axis_witness :
  DropMissingValuesStrategy.handle (drop_with 2 None) 1%positive scenario_state
  = (Raise (NoAxisNamed 2),
     {| heap := heap scenario_state;
        log := log scenario_state ++ [(INFO, DroppingMissingValues 2 None)] |}).
Proof.
  apply (drop_rejects_unknown_axis scenario_state 1%positive scenario 2 None);
    [reflexivity | lia | lia].
Defined.

(** ** Dropping rows twice *)

Lemma select_length {A B : Type} (mask : list bool) :
  forall (xs : list A) (ys : list B),
    length xs = length ys -> length (select mask xs) = length (select mask ys).
Proof.
  induction mask as [|b mask IH]; intros [|x xs] [|y ys] H; simpl in *;
    try discriminate; trivial.
  destruct b; simpl; auto.
Qed.

Lemma select_all {A B : Type} (l : list B) :
  forall xs : list A,
    length xs = length l -> select (List.map (fun _ => true) l) xs = xs.
Proof.
  induction l as [|y l IH]; intros [|x xs] H; simpl in *; try discriminate; trivial.
  f_equal. apply IH. lia.
Qed.

Lemma aligned_loc_rows (mask : list bool) (df : DataFrame) :
  aligned df = true -> aligned (loc_rows mask df) = true.
Proof.
  unfold aligned. rewrite !List.forallb_forall. intros H c Hc.
  unfold loc_rows in Hc; simpl in Hc.
  apply List.in_map_iff in Hc as (c0 & <- & Hc0).
  rewrite cells_select. apply Nat.eqb_eq. unfold loc_rows; simpl.
  apply select_length. now apply Nat.eqb_eq, H.
Qed.

(** When every row is complete, every column is. *)
Lemma rows_complete_columns (idx : list Z) :
  forall cols : list (list cell),
    Forall (fun c => length c = length idx) cols ->
    Forall (fun r => forallb notna (snd r) = true) (rows_of idx cols) ->
    Forall (fun c => forallb notna c = true) cols.
Proof.
  induction idx as [|l idx IH]; intros cols Hlen Hrows.
  - apply List.Forall_forall. intros c Hc.
    rewrite List.Forall_forall in Hlen. specialize (Hlen c Hc).
    destruct c; [reflexivity | discriminate].
  - simpl in Hrows. inversion Hrows as [|? ? Hhd Htl]; subst. simpl in Hhd.
    assert (Hlen' : Forall (fun c => length c = length idx)
                           (List.map (fun c => List.tl c) cols)).
    { rewrite List.Forall_forall in *. intros c Hc.
      apply List.in_map_iff in Hc as (c0 & <- & Hc0).
      specialize (Hlen c0 Hc0). destruct c0; simpl in *; [discriminate | lia]. }
    specialize (IH _ Hlen' Htl).
    rewrite List.Forall_forall in *. intros c Hc.
    specialize (Hlen c Hc). destruct c as [|x c]; [discriminate|].
    simpl. apply andb_true_intro. split.
    + rewrite List.forallb_forall in Hhd. apply Hhd.
      apply List.in_map_iff. exists (x :: c). auto.
    + apply IH. apply List.in_map_iff. exists (x :: c). auto.
Qed.

Lemma count_reaches_length {A : Type} (xs : list (option A)) :
  (Z.of_nat (length xs) <=? count xs) = forallb notna xs.
Proof.
  rewrite <- count_full.
  assert (Hle : count xs <= Z.of_nat (length xs))
    by (unfold count; apply Nat2Z.inj_le, List.filter_length_le).
  destruct (Z.eqb_spec (count xs) (Z.of_nat (length xs))) as [E|E].
  - apply Z.leb_le. lia.
  - apply Z.leb_gt. lia.
Qed.

(** The frame [dropna] builds along the rows when the threshold is the
    number of columns. *)
Lemma dropna_rows_frame (df : DataFrame) :
  dropna 0 (Some (Z.of_nat (length (columns df)))) df
  = inr (loc_rows (List.map (fun r => forallb notna (snd r)) (rows df)) df).
Proof.
  unfold dropna. cbn [Z.eqb]. do 2 f_equal.
  rewrite List.map_map. apply List.map_ext_in. intros r Hr.
  pose proof (rows_of_width (index df) (List.map cells (columns df))) as Hw.
  rewrite List.Forall_forall in Hw. specialize (Hw r Hr).
  rewrite List.length_map in Hw. rewrite <- Hw. apply count_reaches_length.
Qed.

Lemma loc_rows_all (df : DataFrame) :
  aligned df = true ->
  Forall (fun r => forallb notna (snd r) = true) (rows df) ->
  loc_rows (List.map (fun r => forallb notna (snd r)) (rows df)) df = df.
Proof.
  intros Hal Hrows.
  match goal with |- loc_rows ?m _ = _ => set (mask := m) end.
  assert (Hmask : mask = List.map (fun _ => true) (rows df)).
  { subst mask. apply List.map_ext_in. intros r Hr.
    rewrite List.Forall_forall in Hrows. now apply Hrows. }
  rewrite Hmask. clear mask Hmask.
  assert (Hlen : length (rows df) = length (index df)) by apply rows_of_length.
  destruct df as [idx cols]. unfold loc_rows. cbn [index columns] in *. f_equal.
  - apply select_all. now rewrite Hlen.
  - rewrite <- (List.map_id cols) at 2. apply List.map_ext_in. intros c Hc.
    unfold aligned in Hal. cbn [index columns] in Hal.
    rewrite List.forallb_forall in Hal. specialize (Hal c Hc).
    apply Nat.eqb_eq in Hal.
    destruct c as [k v]. cbn [name vals]. f_equal.
    unfold cells in Hal. cbn [vals] in Hal.
    destruct v as [xs|xs]; simpl in *; f_equal; apply select_all.
    + rewrite List.length_map in Hal. now rewrite Hlen.
    + now rewrite Hlen.
Qed.

(** With the number of columns as threshold, dropping along the rows keeps
    exactly the rows without an absent cell; no cell of the result is
    absent, and dropping the rows of the result again, with the same
    strategy, returns the same dataframe. *)
Theorem drop_rows_full_threshold_is_complete_and_stable
    (s : state) (df : ref) (D : DataFrame) :
  heap s !! df = Some D ->
  aligned D = true ->
  let self := drop_with 0 (Some (Z.of_nat (length (columns D)))) in
  exists out,
    returns (DropMissingValuesStrategy.handle self df) s out
    /\ rows out = List.filter (fun r => forallb notna (snd r)) (rows D)
    /\ Forall (fun c => forallb notna (cells c) = true) (columns out)
    /\ returns (once <- DropMissingValuesStrategy.handle self df ;;
                DropMissingValuesStrategy.handle self once)%py s out.
Proof.
  intros Hdf Hal self. subst self.
  set (out := loc_rows (List.map (fun r => forallb notna (snd r)) (rows D)) D).
  assert (Halo : aligned out = true) by now apply aligned_loc_rows.
  assert (Hrows : Forall (fun r => forallb notna (snd r) = true) (rows out)).
  { subst out. rewrite rows_loc_rows by assumption.
    apply List.Forall_forall. intros r Hr. now apply List.filter_In in Hr. }
  assert (Hwidth : length (columns D) = length (columns out))
    by (subst out; unfold loc_rows; cbn [columns]; now rewrite List.length_map).
  exists out. split; [|split; [|split]].
  - apply (returns_drop s df D out 0 _ Hdf). apply dropna_rows_frame.
  - subst out. now apply rows_loc_rows.
  - pose proof (rows_complete_columns (index out) (List.map cells (columns out))
                  (aligned_Forall out Halo) Hrows) as Hcols.
    rewrite List.Forall_forall in *. intros c Hc. apply Hcols. now apply List.in_map.
  - unfold returns, bind.
    rewrite (handle_drop s df D Hdf), dropna_rows_frame. cbv beta iota zeta. fold out.
    erewrite handle_drop by (cbn [heap]; apply lookup_insert_eq).
    rewrite Hwidth, dropna_rows_frame, (loc_rows_all out Halo Hrows).
    cbv beta iota zeta.
    eexists _, _. split; [reflexivity|]. cbn [heap]. apply lookup_insert_eq.
Qed.

Lemma drop_rows_full_threshold_witness :
  let self := drop_with 0 (Some 3) in
  exists out,
    returns (DropMissingValuesStrategy.handle self 1%positive) sparse_state out
    /\ rows out = [(1, [Some (SNum (2#1)); Some (SStr "x"); Some (SNum (4#1))])]
    /\ Forall (fun c => forallb notna (cells c) = true) (columns out)
    /\ returns (once <- DropMissingValuesStrategy.handle self 1%positive ;;
                DropMissingValuesStrategy.handle self once)%py sparse_state out.
Proof.
  apply (drop_rows_full_threshold_is_complete_and_stable
           sparse_state 1%positive sparse); reflexivity.
Defined.

(* ===================================================================== *)
(** * Further properties of the fill strategy *)
(* ===================================================================== *)









(** ** What no fill changes *)

Lemma Forall2_map_self {A : Type} (R : A -> A -> Prop) (f : A -> A) (l : list A) :
  (forall x, R x (f x)) -> Forall2 R l (List.map f l).
Proof. intros H. induction l; simpl; constructor; auto. Qed.

Lemma kept_refl (x : cell) : kept x x.
Proof. now destruct x. Qed.

Lemma kept_all (xs : list cell) : Forall2 kept xs xs.
Proof. induction xs; constructor; auto using kept_refl. Qed.

Lemma kept_fill_num (m : option Q) (xs : list (option Q)) :
  Forall2 kept (List.map (option_map SNum) xs)
               (List.map (option_map SNum) (fill_num m xs)).
Proof.
  destruct m as [m|]; simpl.
  - induction xs as [|[x|] xs IH]; simpl; constructor; simpl; auto.
  - apply kept_all.
Qed.

Lemma kept_fill_aligned (other : Z -> option Q) (xs : list (option Q)) :
  forall idx,
    Forall2 kept (List.map (option_map SNum) xs)
                 (List.map (option_map SNum) (fill_aligned idx xs other)).
Proof.
  induction xs as [|x xs IH]; intros [|l idx]; simpl; try constructor.
  - apply kept_refl.
  - clear. induction xs; simpl; constructor; auto using kept_refl.
  - destruct x; simpl; auto.
  - apply IH.
Qed.

Lemma kept_fill_cell (v : scalar) (xs : list cell) :
  Forall2 kept xs (List.map (fill_cell v) xs).
Proof. apply Forall2_map_self. now intros [x|]. Qed.

Lemma preserved_map (f : Series -> Series) (D : DataFrame) :
  (forall c, name (f c) = name c /\ Forall2 kept (cells c) (cells (f c))) ->
  preserved D {| index := index D; columns := List.map f (columns D) |}.
Proof.
  intros H. split; [reflexivity|]. split.
  - unfold names; cbn [columns]. rewrite List.map_map.
    apply List.map_ext. intros c. apply H.
  - cbn [columns]. induction (columns D); simpl; constructor; auto. apply H.
Qed.

Lemma preserved_fill_numeric (stat : list (option Q) -> option Q) (D : DataFrame) :
  preserved D {| index := index D; columns := List.map (fill_numeric stat) (columns D) |}.
Proof.
  apply preserved_map. intros c. unfold fill_numeric, cells.
  destruct (vals c) as [xs|xs] eqn:Hv; cbn [name vals cells_of]; rewrite ?Hv.
  - split; [reflexivity | apply kept_fill_num].
  - split; [reflexivity | apply kept_all].
Qed.

(** Whatever the method and the fill value, a dataframe that [handle] of the
    fill strategy returns has the row labels and the column labels of the
    input, as many cells in every column, and every present cell of the
    input unchanged. *)
Theorem fill_keeps_labels_and_present_cells
    (self : FillMissingValuesStrategy.t)
    (s : state) (df : ref) (D out : DataFrame) :
  heap s !! df = Some D ->
  unique_names D = true ->
  returns (FillMissingValuesStrategy.handle self df) s out ->
  index out = index D
  /\ names out = names D
  /\ Forall2 (fun c c' => Forall2 kept (cells c) (cells c')) (columns D) (columns out).
Proof.
  intros Hdf Hu Hret. change (preserved D out).
  assert (Hvia : forall X, returns (FillMissingValuesStrategy.handle self df) s X ->
                           preserved D X -> preserved D out).
  { intros X HX HP. now rewrite (returns_unique _ _ _ _ Hret HX). }
  assert (Hassigned : forall m v X,
            assigned s df m v X ->
            returns (FillMissingValuesStrategy.handle (fill_with m v) df) s X).
  { intros m v X HX. unfold returns. eexists _, _. split; [exact HX|].
    cbn [heap]. apply lookup_insert_eq. }
  destruct self as [m v].
  change {| FillMissingValuesStrategy.method := m;
            FillMissingValuesStrategy.fill_value := v |} with (fill_with m v) in *.
  destruct (String.eqb_spec m "mean") as [->|Hmean].
  { eapply Hvia; [apply Hassigned, (handle_mean s df D Hdf)|].
    cbv zeta. unfold mean. rewrite (fill_statistic mean_of) by assumption.
    apply preserved_fill_numeric. }
  destruct (String.eqb_spec m "median") as [->|Hmedian].
  { eapply Hvia; [apply Hassigned, (handle_median s df D Hdf)|].
    cbv zeta. unfold median. rewrite (fill_statistic median_of) by assumption.
    apply preserved_fill_numeric. }
  destruct (String.eqb_spec m "mode") as [->|Hmode].
  { eapply Hvia; [apply Hassigned, (handle_mode s df D Hdf)|].
    rewrite fill_mode_frame by assumption.
    apply preserved_map. intros c. unfold mode_filled, cells.
    destruct (vals c) as [xs|xs] eqn:Hv; cbn [name vals cells_of]; rewrite ?Hv.
    - split; [reflexivity | apply kept_fill_aligned].
    - split; [reflexivity | apply kept_all]. }
  destruct (String.eqb_spec m "constant") as [->|Hconstant].
  { destruct v as [v|].
    - eapply Hvia; [apply (returns_constant s df D v Hdf)|].
      unfold constant_filled. apply preserved_map. intros c.
      split; [reflexivity|]. unfold cells; cbn [vals].
      rewrite cells_fillna_values. apply kept_fill_cell.
    - exfalso. destruct Hret as (r & s' & E & _).
      rewrite (handle_constant s df D Hdf) in E. discriminate. }
  eapply Hvia.
  - apply Hassigned, (handle_other s df D Hdf).
    unfold FillMissingValuesStrategy.allowed. simpl.
    apply String.eqb_neq in Hmean, Hmedian, Hmode, Hconstant.
    now rewrite Hmean, Hmedian, Hmode, Hconstant.
  - split; [reflexivity|]. split; [reflexivity|].
    induction (columns D) as [|c cols IH]; constructor; trivial.
    apply kept_all.
Qed.

Lemma fill_keeps_labels_witness :
  let out := {| index := [0; 1; 2];
                columns :=
                  [ {| name := "A"; vals := Numeric [Some (1#1)%Q; Some (2#1)%Q; None] |};
                    {| name := "B";
                       vals := Numeric [Some (4#1)%Q; Some (4#1)%Q; Some (6#1)%Q] |} ] |} in
  index out = index scenario
  /\ names out = names scenario
  /\ Forall2 (fun c c' => Forall2 kept (cells c) (cells c'))
             (columns scenario) (columns out).
Proof.
  intros out.
  apply (fill_keeps_labels_and_present_cells (fill_with "mode" None)
           scenario_state 1%positive scenario out); [reflexivity | reflexivity |].
  unfold returns. eexists _, _. split.
  - apply (handle_mode scenario_state 1%positive scenario); reflexivity.
  - cbn [heap]. rewrite lookup_insert_eq. reflexivity.
Defined.

(** ** The median fill *)



(** ** The mode fill, row by row *)

Lemma fill_aligned_nth (other : Z -> option Q) (xs : list (option Q)) :
  forall (idx : list Z) (i : nat) (l : Z),
    List.nth_error idx i = Some l ->
    List.nth_error xs i = Some None ->
    List.nth_error (fill_aligned idx xs other) i = Some (other l).
Proof.
  induction xs as [|x xs IH]; intros idx i l Hl Hx.
  - destruct i; discriminate.
  - destruct idx as [|l0 idx]; [destruct i; discriminate|].
    destruct i as [|i]; simpl in *.
    + inversion Hl; inversion Hx; subst. reflexivity.
    + eapply IH; eauto.
Qed.

(** The row labelled [i] of a frame of [n] rows is its [i]-th row. *)
Lemma at_label_inside (n : nat) :
  forall (a i : nat) (vs : list (option Q)) (v : option Q),
    (i < n)%nat ->
    List.nth_error vs i = Some v ->
    at_label (Z.of_nat (a + i)) (List.map Z.of_nat (List.seq a n)) vs = v.
Proof.
  induction n as [|n IH]; intros a i vs v Hi Hv; [lia|].
  destruct vs as [|v0 vs]; [destruct i; discriminate|].
  simpl. destruct i as [|i]; simpl in Hv.
  - rewrite Nat.add_0_r, Z.eqb_refl. congruence.
  - destruct (Z.eqb_spec (Z.of_nat (a + S i)) (Z.of_nat a)) as [E|_]; [lia|].
    replace (a + S i)%nat with (S a + i)%nat by lia.
    apply IH; [lia | exact Hv].
Qed.

Lemma mode_rows_bound (cols : list (string * list (option Q))) (kx : string * list (option Q)) :
  List.In kx cols -> (length (mode_of (snd kx)) <= mode_rows cols)%nat.
Proof.
  unfold mode_rows. induction cols as [|c cols IH]; simpl; intros H; [contradiction|].
  destruct H as [->|H]; [lia|]. specialize (IH H). lia.
Qed.

Lemma returns_mode_column
    (s : state) (df : ref) (D : DataFrame) (v : option scalar)
    (j : nat) (c : Series) (xs : list (option Q)) :
  heap s !! df = Some D ->
  unique_names D = true ->
  List.nth_error (columns D) j = Some c ->
  vals c = Numeric xs ->
  exists out,
    returns (FillMissingValuesStrategy.handle (fill_with "mode" v) df) s out
    /\ List.nth_error (columns out) j
       = Some {| name := name c;
                 vals := Numeric
                           (fill_aligned (index D) xs
                              (fun l =>
                                 at_label l
                                   (List.map Z.of_nat
                                      (List.seq 0 (mode_rows (numeric_part (columns D)))))
                                   (mode_column (mode_rows (numeric_part (columns D)))
                                                (mode_of xs)))) |}.
Proof.
  intros Hdf Hu Hc Hv.
  exists {| index := index D;
            columns :=
              List.map (mode_filled (index D) (mode_rows (numeric_part (columns D))))
                       (columns D) |}.
  split.
  - now apply fill_mode_returns.
  - cbn [columns]. rewrite List.nth_error_map, Hc. cbn [option_map].
    unfold mode_filled. now rewrite Hv.
Qed.

(** With method [mode], an absent cell of a numeric column whose row label
    is [i], for [i] below the number of modes of the column, is filled with
    the [i]-th mode of the column as the library lists them. *)
Theorem mode_fill_takes_mode_of_same_row_label
    (s : state) (df : ref) (D : DataFrame) (v : option scalar)
    (j i p : nat) (c : Series) (xs : list (option Q)) (m : Q) :
  heap s !! df = Some D ->
  unique_names D = true ->
  List.nth_error (columns D) j = Some c ->
  vals c = Numeric xs ->
  List.nth_error (index D) p = Some (Z.of_nat i) ->
  List.nth_error xs p = Some None ->
  List.nth_error (mode_of xs) i = Some m ->
  exists out c',
    returns (FillMissingValuesStrategy.handle (fill_with "mode" v) df) s out
    /\ List.nth_error (columns out) j = Some c'
    /\ name c' = name c
    /\ List.nth_error (cells c') p = Some (Some (SNum m)).
Proof.
  intros Hdf Hu Hc Hv Hl Hx Hm.
  destruct (returns_mode_column s df D v j c xs Hdf Hu Hc Hv) as (out & Hret & Hcol).
  eexists out, _. split; [exact Hret|]. split; [exact Hcol|]. split; [reflexivity|].
  unfold cells; cbn [vals cells_of].
  rewrite List.nth_error_map, (fill_aligned_nth _ xs (index D) p (Z.of_nat i) Hl Hx).
  assert (Hi : (i < length (mode_of xs))%nat)
    by (apply List.nth_error_Some; congruence).
  assert (Hn : (length (mode_of xs) <= mode_rows (numeric_part (columns D)))%nat).
  { apply (mode_rows_bound _ (name c, xs)). apply numeric_part_In.
    exists c. split; [|auto]. eapply List.nth_error_In; eauto. }
  rewrite (at_label_inside (mode_rows (numeric_part (columns D))) 0 i _ (Some m)).
  - reflexivity.
  - lia.
  - unfold mode_column. rewrite List.nth_error_app1 by (rewrite List.length_map; lia).
    rewrite List.nth_error_map, Hm. reflexivity.
Qed.

Lemma mode_fill_same_row_witness :
  exists out c',
    returns (FillMissingValuesStrategy.handle (fill_with "mode" None) 1%positive)
            scenario_state out
    /\ List.nth_error (columns out) 1 = Some c'
    /\ name c' = "B"
    /\ List.nth_error (cells c') 0 = Some (Some (SNum (4#1))).
Proof.
  apply (mode_fill_takes_mode_of_same_row_label scenario_state 1%positive scenario None
           1%nat 0%nat 0%nat
           {| name := "B"; vals := Numeric [None; Some (4#1)%Q; Some (6#1)%Q] |}
           [None; Some (4#1)%Q; Some (6#1)%Q] (4#1)%Q); reflexivity.
Defined.

(** With method [mode], an absent cell of a numeric column whose row label
    is negative or not below the largest number of modes of a numeric column
    is still absent in the result. *)
Theorem mode_fill_leaves_other_rows_absent
    (s : state) (df : ref) (D : DataFrame) (v : option scalar)
    (j p : nat) (l : Z) (c : Series) (xs : list (option Q)) :
  heap s !! df = Some D ->
  unique_names D = true ->
  List.nth_error (columns D) j = Some c ->
  vals c = Numeric xs ->
  List.nth_error (index D) p = Some l ->
  List.nth_error xs p = Some None ->
  l < 0 \/ Z.of_nat (mode_rows (numeric_part (columns D))) <= l ->
  exists out c',
    returns (FillMissingValuesStrategy.handle (fill_with "mode" v) df) s out
    /\ List.nth_error (columns out) j = Some c'
    /\ name c' = name c
    /\ List.nth_error (cells c') p = Some None.
Proof.
  intros Hdf Hu Hc Hv Hl Hx Hout.
  destruct (returns_mode_column s df D v j c xs Hdf Hu Hc Hv) as (out & Hret & Hcol).
  eexists out, _. split; [exact Hret|]. split; [exact Hcol|]. split; [reflexivity|].
  unfold cells; cbn [vals cells_of].
  rewrite List.nth_error_map, (fill_aligned_nth _ xs (index D) p l Hl Hx).
  now rewrite at_label_outside.
Qed.

Lemma mode_fill_other_rows_witness :
  exists out c',
    returns (FillMissingValuesStrategy.handle (fill_with "mode" None) 1%positive)
            scenario_state out
    /\ List.nth_error (columns out) 0 = Some c'
    /\ name c' = "A"
    /\ List.nth_error (cells c') 2 = Some None.
Proof.
  apply (mode_fill_leaves_other_rows_absent scenario_state 1%positive scenario None
           0%nat 2%nat 2
           {| name := "A"; vals := Numeric [Some (1#1)%Q; Some (2#1)%Q; None] |}
           [Some (1#1)%Q; Some (2#1)%Q; None]);
    [reflexivity | reflexivity | reflexivity | reflexivity | reflexivity | reflexivity
    | right; vm_compute; discriminate].
Defined.

(* ===================================================================== *)
(** * Further properties of the pipeline step *)
(* ===================================================================== *)



(** Called with ["drop"], the step builds the drop strategy with [axis=0]
    and no threshold, and so returns the columns of its input without a row,
    whatever the input.  Columns are never dropped by the step. *)
Theorem step_drop_keeps_no_row (s : state) (data : ref) (D : DataFrame) :
  heap s !! data = Some D ->
  exists out,
    returns (handle_missing_values_step data (Some "drop")) s out
    /\ index out = []
    /\ rows out = []
    /\ names out = names D.
Proof.
  intros Hdf. eexists. split.
  - unfold returns. rewrite step_dispatch. cbv zeta.
    change (String.eqb "drop" "drop") with true.
    cbv iota. cbn [MissingValueHandlingStrategy.handle].
    rewrite (handle_drop _ data D) by exact Hdf.
    rewrite (proj1 (dropna_none D)). cbv beta iota zeta.
    eexists _, _. split; [reflexivity|]. cbn [heap]. apply lookup_insert_eq.
  - cbn [index columns]. split; [reflexivity|]. split; [reflexivity|].
    unfold names; cbn [columns]. now rewrite List.map_map.
Qed.

Lemma step_drop_witness :
  exists out,
    returns (handle_missing_values_step 1%positive (Some "drop")) sparse_state out
    /\ index out = []
    /\ rows out = []
    /\ names out = ["A"; "B"; "C"].
Proof.
  apply (step_drop_keeps_no_row sparse_state 1%positive sparse); reflexivity.
Defined.

(** Whatever the strategy name, the step changes no object that existed: the
    input dataframe and every other object are as before, and a returned
    reference is a new object. *)
Theorem step_leaves_objects_unchanged
    (strategy : option string) (data : ref) (s : state)
    (o : outcome ref) (s' : state) :
  handle_missing_values_step data strategy s = (o, s') ->
  heap s ⊆ heap s'
  /\ forall r, o = Return r -> heap s !! r = None /\ is_Some (heap s' !! r).
Proof.
  assert (Hsome : forall name,
            handle_missing_values_step data (Some name) s = (o, s') ->
            heap s ⊆ heap s'
            /\ forall r, o = Return r -> heap s !! r = None /\ is_Some (heap s' !! r)).
  { intros name. rewrite step_dispatch. cbv zeta.
    destruct (String.eqb name "drop").
    - intros Hrun. apply handle_cases in Hrun as [Hsub Ho]. cbn [heap] in *.
      split; [exact Hsub|]. intros r ->. exact Ho.
    - destruct (existsb _ _).
      + intros Hrun. apply handle_cases in Hrun as [Hsub Ho]. cbn [heap] in *.
        split; [exact Hsub|]. intros r ->. exact Ho.
      + intros [= <- <-]. split; [reflexivity | discriminate]. }
  destruct strategy as [name|]; [apply Hsome|].
  change (handle_missing_values_step data None)
    with (handle_missing_values_step data (Some "mean")).
  apply Hsome.
Qed.

Lemma step_leaves_objects_witness :
  let run := handle_missing_values_step 1%positive (Some "median") sparse_state in
  heap sparse_state ⊆ heap (snd run)
  /\ forall r, fst run = Return r ->
               heap sparse_state !! r = None /\ is_Some (heap (snd run) !! r).
Proof.
  intros run.
  apply (step_leaves_objects_unchanged (Some "median") 1%positive sparse_state
           (fst run) (snd run)).
  apply surjective_pairing.
Defined.

(* ===================================================================== *)
(** * Properties of the missing-value report *)
(* ===================================================================== *)

Lemma filter_map_commute {A B : Type} (f : A -> B) (p : B -> bool) (l : list A) :
  List.filter p (List.map f l) = List.map f (List.filter (fun x => p (f x)) l).
Proof.
  induction l as [|x l IH]; simpl; trivial.
  destruct (p (f x)); simpl; now rewrite IH.
Qed.

Lemma isnull_sum_positive (xs : list cell) :
  (0 <? SimpleMissingValuesAnalysis.isnull_sum xs) = negb (forallb notna xs).
Proof.
  unfold SimpleMissingValuesAnalysis.isnull_sum.
  induction xs as [|[x|] xs IH]; simpl; trivial.
Qed.


Lemma report_lists_columns_with_absent_cells_eq (df : DataFrame) :
  List.map fst (SimpleMissingValuesAnalysis.identify_missing_values df)
  = List.map name
      (List.filter (fun c => negb (forallb notna (cells c))) (columns df)).
Proof.
  unfold SimpleMissingValuesAnalysis.identify_missing_values. cbv zeta.
  rewrite List.map_map. cbn [fst].
  rewrite filter_map_commute, List.map_map. cbn [fst snd].
  f_equal. apply List.filter_ext. intros c. apply isnull_sum_positive.
Qed.

(** The report lists exactly the columns that have an absent cell, in column
    order, each once per column. *)
Theorem report_lists_columns_with_absent_cells (df : DataFrame) :
  List.map fst (SimpleMissingValuesAnalysis.identify_missing_values df)
  = List.map name
      (List.filter (fun c => negb (forallb notna (cells c))) (columns df))
  /\ (SimpleMissingValuesAnalysis.identify_missing_values df = []
      <-> Forall (fun c => forallb notna (cells c) = true) (columns df)).
Proof.
  split; [apply report_lists_columns_with_absent_cells_eq|].
  split.
  - intros Hnil.
    pose proof (report_lists_columns_with_absent_cells_eq df) as E.
    rewrite Hnil in E. simpl in E. symmetry in E.
    apply List.map_eq_nil in E.
    apply List.Forall_forall. intros c Hc.
    destruct (forallb notna (cells c)) eqn:Hall; trivial.
    assert (Hin : List.In c (List.filter (fun c => negb (forallb notna (cells c)))
                                         (columns df))).
    { apply List.filter_In. split; [exact Hc | now rewrite Hall]. }
    rewrite E in Hin. contradiction.
  - intros Hall.
    unfold SimpleMissingValuesAnalysis.identify_missing_values. cbv zeta.
    rewrite filter_map_commute. cbn [snd].
    assert (E : List.filter
                  (fun c => 0 <? SimpleMissingValuesAnalysis.isnull_sum (cells c))
                  (columns df) = []).
    { induction Hall as [|c cols Hc _ IH]; simpl; trivial.
      now rewrite isnull_sum_positive, Hc. }
    now rewrite E.
Qed.








Lemma report_lists_witness :
  List.map fst (SimpleMissingValuesAnalysis.identify_missing_values sparse) = ["A"; "B"]
  /\ (SimpleMissingValuesAnalysis.identify_missing_values sparse = []
      <-> Forall (fun c => forallb notna (cells c) = true) (columns sparse)).
Proof. apply (report_lists_columns_with_absent_cells sparse). Defined.

(* ===================================================================== *)
(** * Properties of the ingestion *)
(* ===================================================================== *)

(** ** Strings *)

Lemma append_nil_l (s : string) : String.append "" s = s.
Proof. reflexivity. Qed.

Lemma append_cons_l (c : ascii) (a s : string) :
  String.append (String c a) s = String c (String.append a s).
Proof. reflexivity. Qed.

Lemma endswith_spec (s suffix : string) :
  endswith s suffix = true <-> exists a, s = String.append a suffix.
Proof.
  induction s as [|c s IH]; cbn [endswith].
  - split.
    + intros H. apply String.eqb_eq in H. subst. now exists "".
    + intros (a & H). destruct a; [|rewrite append_cons_l in H; discriminate].
      rewrite append_nil_l in H. subst. apply String.eqb_refl.
  - rewrite orb_true_iff, IH. split.
    + intros [H|(a & H)].
      * apply String.eqb_eq in H. exists "". now rewrite append_nil_l.
      * exists (String c a). rewrite append_cons_l. now rewrite H.
    + intros (a & H). destruct a as [|c' a].
      * left. rewrite append_nil_l in H. subst. apply String.eqb_refl.
      * right. rewrite append_cons_l in H. inversion H; subst. now exists a.
Qed.

Lemma split_not_nil (sep : ascii) (s : string) : split sep s <> [].
Proof.
  destruct s as [|c s]; simpl; [discriminate|].
  destruct (Ascii.eqb c sep); [discriminate|].
  destruct (split sep s); discriminate.
Qed.

Lemma split_without_sep (sep : ascii) (s : string) :
  occurs sep s = false -> split sep s = [s].
Proof.
  induction s as [|c s IH]; simpl; trivial. intros H.
  apply orb_false_elim in H as [Hc Hs]. now rewrite Hc, (IH Hs).
Qed.

Lemma split_two (sep : ascii) (a b : string) :
  exists h h' t, split sep (String.append a (String sep b)) = h :: h' :: t.
Proof.
  induction a as [|c a (h & h' & t & IH)]; simpl.
  - rewrite Ascii.eqb_refl.
    destruct (split sep b) as [|h' t] eqn:E; [now apply split_not_nil in E|].
    now exists "", h', t.
  - destruct (Ascii.eqb c sep).
    + rewrite IH. now exists "", h, (h' :: t).
    + rewrite IH. now exists (String c h), h', t.
Qed.

(** The last field of a split is what follows the last separator. *)
Lemma last_split_app (sep : ascii) (a b : string) :
  List.last (split sep (String.append a (String sep b))) ""
  = List.last (split sep b) "".
Proof.
  induction a as [|c a IH]; simpl.
  - rewrite Ascii.eqb_refl.
    destruct (split sep b) as [|h t] eqn:E; [now apply split_not_nil in E|].
    reflexivity.
  - destruct (split_two sep a b) as (h & h' & t & E).
    rewrite E in IH |- *.
    destruct (Ascii.eqb c sep); exact IH.
Qed.

Lemma occurs_decompose (sep : ascii) (s : string) :
  occurs sep s = true ->
  exists a b, s = String.append a (String sep b) /\ occurs sep b = false.
Proof.
  induction s as [|c s IH]; simpl; [discriminate|]. intros H.
  destruct (occurs sep s) eqn:Hs.
  - destruct (IH eq_refl) as (a & b & -> & Hb). now exists (String c a), b.
  - rewrite orb_false_r in H. apply Ascii.eqb_eq in H. subst c. now exists "", s.
Qed.

(** The extension the step computes: the whole path when it has no dot, else
    what follows its last dot. *)
Lemma extension_cases (p : string) :
  (occurs "." p = false /\ List.last (split "." p) "" = p)
  \/ (exists a b, p = String.append a (String "." b)
                  /\ occurs "." b = false
                  /\ List.last (split "." p) "" = b).
Proof.
  destruct (occurs "." p) eqn:Hp.
  - right. destruct (occurs_decompose "." p Hp) as (a & b & -> & Hb).
    exists a, b. split; [reflexivity|]. split; [exact Hb|].
    now rewrite last_split_app, (split_without_sep "." b Hb).
  - left. split; [reflexivity|]. now rewrite (split_without_sep "." p Hp).
Qed.

Lemma extension_of_zip (p : string) :
  endswith p ".zip" = true -> List.last (split "." p) "" = "zip".
Proof.
  intros H. apply endswith_spec in H as (a & ->).
  change ".zip" with (String "." "zip"). now rewrite last_split_app.
Qed.

Lemma extension_zip_inv (p : string) :
  List.last (split "." p) "" = "zip" -> p = "zip" \/ endswith p ".zip" = true.
Proof.
  intros H. destruct (extension_cases p) as [[_ E]|(a & b & -> & _ & E)].
  - left. congruence.
  - right. rewrite E in H. subst b. apply endswith_spec. now exists a.
Qed.

Lemma extension_without_dot (p : string) :
  occurs "." (List.last (split "." p) "") = false.
Proof.
  destruct (extension_cases p) as [[H E]|(a & b & _ & H & E)]; now rewrite E.
Qed.

(** ** Choosing the CSV file *)

Lemma filter_single {A : Type} (p : A -> bool) (l1 l2 : list A) (x : A) :
  p x = true ->
  forallb (fun y => negb (p y)) (l1 ++ l2) = true ->
  List.filter p (l1 ++ x :: l2) = [x].
Proof.
  intros Hx Hall. rewrite List.forallb_app in Hall.
  apply andb_prop in Hall as [H1 H2].
  assert (Hnone : forall l, forallb (fun y => negb (p y)) l = true ->
                            List.filter p l = []).
  { induction l as [|y l IH]; simpl; trivial. intros H.
    apply andb_prop in H as [Hy Hl]. apply negb_true_iff in Hy.
    rewrite Hy. auto. }
  rewrite List.filter_app. simpl. now rewrite Hx, (Hnone l1 H1), (Hnone l2 H2).
Qed.

Lemma filter_single_inv {A : Type} (p : A -> bool) (l : list A) (x : A) :
  List.filter p l = [x] ->
  exists l1 l2, l = l1 ++ x :: l2 /\ p x = true
                /\ forallb (fun y => negb (p y)) (l1 ++ l2) = true.
Proof.
  induction l as [|y l IH]; simpl; [discriminate|].
  destruct (p y) eqn:Hy.
  - intros [= -> Hl]. exists [], l. split; [reflexivity|]. split; [exact Hy|].
    simpl. clear -Hl. induction l as [|z l IH]; simpl in *; trivial.
    destruct (p z); [discriminate|]. simpl. auto.
  - intros H. destruct (IH H) as (l1 & l2 & -> & Hx & Hall).
    exists (y :: l1), l2. split; [reflexivity|]. split; [exact Hx|].
    simpl. now rewrite Hy.
Qed.

Section IngestionProperties.
Context {world oserror : Type} (os : OS world oserror).

(** For a path that ends in [.zip] the factory never refuses: the step is
    the ingestor's [ingest], and it raises neither of the two path errors. *)
Theorem ingestion_step_accepts_zip_paths (p : string) (w : env world) :
  endswith p ".zip" = true ->
  data_ingestion_step os p w = ZipDataIngestor_ingest os p w
  /\ fst (data_ingestion_step os p w) <> inl NotZipFile
  /\ forall ext, fst (data_ingestion_step os p w) <> inl (NoIngestorAvailable ext).
Proof.
  intros Hzip.
  assert (E : data_ingestion_step os p w = ZipDataIngestor_ingest os p w).
  { unfold data_ingestion_step, get_data_ingestor. cbv zeta.
    rewrite (extension_of_zip p Hzip). reflexivity. }
  rewrite E. split; [reflexivity|].
  unfold ZipDataIngestor_ingest. rewrite Hzip. cbn [negb].
  destruct (extractall os p "extracted_data" (fs w)) as [[e|] fs1];
    [split; [|intros ext]; discriminate|].
  destruct (listdir os "extracted_data" fs1) as [e|files];
    [split; [|intros ext]; discriminate|].
  cbv zeta.
  destruct (Nat.eqb _ 0); [split; [|intros ext]; discriminate|].
  destruct (Nat.ltb 1 _); [split; [|intros ext]; discriminate|].
  destruct (read_csv os _ fs1); split; try intros ext; discriminate.
Qed.

(** For a path that does not end in [.zip] the step raises before it
    touches the file system or prints: the no-ingestor error with what
    follows the last dot (the whole path when there is no dot), except for
    the path ["zip"] itself, which passes the factory and is refused by the
    ingestor. *)
Theorem ingestion_step_rejects_other_paths (p : string) (w : env world) :
  endswith p ".zip" = false ->
  data_ingestion_step os p w
  = (inl (if String.eqb p "zip" then NotZipFile
          else NoIngestorAvailable (List.last (split "." p) "")),
     w).
Proof.
  intros Hzip. unfold data_ingestion_step, get_data_ingestor. cbv zeta.
  assert (Hdot : String.eqb (List.last (split "." p) "") ".zip" = false).
  { apply String.eqb_neq. intros E.
    pose proof (extension_without_dot p) as H. rewrite E in H. discriminate. }
  rewrite Hdot. cbn [orb].
  destruct (String.eqb_spec (List.last (split "." p) "") "zip") as [E|E].
  - destruct (extension_zip_inv p E) as [->|H]; [|congruence].
    reflexivity.
  - destruct (String.eqb_spec p "zip") as [->|_]; [|reflexivity].
    exfalso. apply E. reflexivity.
Qed.

(** When the extraction directory, after the archive is extracted, lists
    exactly one name ending in [.csv], [ingest] reads that file, wherever it
    stands in the listing and whatever the other names are; the listing is
    printed and the extracted files stay. *)
Theorem ingest_reads_the_single_csv
    (p : string) (w : env world) (fs1 : world) (l1 l2 : list string) (f : string) :
  endswith p ".zip" = true ->
  extractall os p "extracted_data" (fs w) = (None, fs1) ->
  listdir os "extracted_data" fs1 = inr (l1 ++ f :: l2) ->
  endswith f ".csv" = true ->
  forallb (fun g => negb (endswith g ".csv")) (l1 ++ l2) = true ->
  ZipDataIngestor_ingest os p w
  = (match read_csv os (path_join os "extracted_data" f) fs1 with
     | inl e => inl (OSFailure e)
     | inr df => inr df
     end,
     {| fs := fs1; stdout := stdout w ++ [l1 ++ f :: l2] |}).
Proof.
  intros Hzip Hex Hls Hf Hothers.
  unfold ZipDataIngestor_ingest. rewrite Hzip, Hex, Hls. cbn [negb]. cbv zeta.
  rewrite (filter_single (fun g => endswith g ".csv") l1 l2 f Hf Hothers).
  cbn [length Nat.eqb Nat.ltb Nat.leb List.nth].
  now destruct (read_csv os _ fs1).
Qed.

(** [ingest] returns a dataframe only for a path ending in [.zip] whose
    extraction succeeded and left exactly one name ending in [.csv] in the
    extraction directory; the dataframe is what reading that file gives. *)
Theorem ingest_returns_only_for_a_single_csv
    (p : string) (w w' : env world) (df : DataFrame) :
  ZipDataIngestor_ingest os p w = (inr df, w') ->
  endswith p ".zip" = true
  /\ exists fs1 l1 f l2,
       extractall os p "extracted_data" (fs w) = (None, fs1)
       /\ listdir os "extracted_data" fs1 = inr (l1 ++ f :: l2)
       /\ endswith f ".csv" = true
       /\ forallb (fun g => negb (endswith g ".csv")) (l1 ++ l2) = true
       /\ read_csv os (path_join os "extracted_data" f) fs1 = inr df
       /\ w' = {| fs := fs1; stdout := stdout w ++ [l1 ++ f :: l2] |}.
Proof.
  unfold ZipDataIngestor_ingest.
  destruct (endswith p ".zip") eqn:Hzip; cbn [negb]; [|discriminate].
  destruct (extractall os p "extracted_data" (fs w)) as [[e|] fs1] eqn:Hex;
    [discriminate|].
  destruct (listdir os "extracted_data" fs1) as [e|files] eqn:Hls; [discriminate|].
  cbv zeta.
  destruct (List.filter (fun g => endswith g ".csv") files) as [|f [|f' rest]] eqn:Hcsv;
    cbn [length Nat.eqb Nat.ltb Nat.leb List.nth]; try discriminate.
  destruct (read_csv os _ fs1) as [e|df0] eqn:Hread; [discriminate|].
  intros [= -> <-]. split; [reflexivity|].
  destruct (filter_single_inv _ files f Hcsv) as (l1 & l2 & -> & Hf & Hothers).
  exists fs1, l1, f, l2. auto 10.
Qed.

(** Once the archive is extracted, [ingest] fails on the listing of the
    extraction directory alone: with no name ending in [.csv] it raises the
    no-CSV error, with two or more the multiple-CSV error; in both cases the
    listing is printed and the extracted files stay. *)
Theorem ingest_fails_on_csv_count
    (p : string) (w : env world) (fs1 : world) (files : list string) :
  endswith p ".zip" = true ->
  extractall os p "extracted_data" (fs w) = (None, fs1) ->
  listdir os "extracted_data" fs1 = inr files ->
  let n := length (List.filter (fun f => endswith f ".csv") files) in
  let w1 := {| fs := fs1; stdout := stdout w ++ [files] |} in
  (n = 0%nat -> ZipDataIngestor_ingest os p w = (inl NoCsvFound, w1))
  /\ ((2 <= n)%nat -> ZipDataIngestor_ingest os p w = (inl MultipleCsvFound, w1)).
Proof.
  intros Hzip Hex Hls n w1. subst n w1.
  unfold ZipDataIngestor_ingest. rewrite Hzip, Hex, Hls. cbn [negb]. cbv zeta.
  split; intros Hn.
  - now rewrite Hn.
  - destruct (length _) as [|[|n]]; try lia. reflexivity.
Qed.

End IngestionProperties.

Lemma ingestion_step_accepts_witness :
  let w := {| fs := @nil string; stdout := [] |} in
  data_ingestion_step toy_os "data/archive.zip" w
  = ZipDataIngestor_ingest toy_os "data/archive.zip" w
  /\ fst (data_ingestion_step toy_os "data/archive.zip" w) <> inl NotZipFile
  /\ forall ext,
       fst (data_ingestion_step toy_os "data/archive.zip" w)
       <> inl (NoIngestorAvailable ext).
Proof.
  intros w.
  apply (ingestion_step_accepts_zip_paths toy_os "data/archive.zip" w). reflexivity.
Defined.

Lemma ingestion_step_rejects_witness :
  let w := {| fs := @nil string; stdout := [] |} in
  data_ingestion_step toy_os "archive.tar.gz" w = (inl (NoIngestorAvailable "gz"), w)
  /\ data_ingestion_step toy_os "zip" w = (inl NotZipFile, w).
Proof.
  intros w. split.
  - apply (ingestion_step_rejects_other_paths toy_os "archive.tar.gz" w). reflexivity.
  - apply (ingestion_step_rejects_other_paths toy_os "zip" w). reflexivity.
Defined.

Lemma ingest_single_csv_witness :
  ZipDataIngestor_ingest toy_os "a.zip" {| fs := ["notes.txt"]; stdout := [] |}
  = (inr scenario,
     {| fs := ["notes.txt"; "data.csv"]; stdout := [["notes.txt"; "data.csv"]] |}).
Proof.
  apply (ingest_reads_the_single_csv toy_os "a.zip"
           {| fs := ["notes.txt"]; stdout := [] |}
           ["notes.txt"; "data.csv"] ["notes.txt"] [] "data.csv"); reflexivity.
Defined.

Lemma ingest_returns_witness :
  endswith "a.zip" ".zip" = true
  /\ exists fs1 l1 f l2,
       extractall toy_os "a.zip" "extracted_data" ["notes.txt"] = (None, fs1)
       /\ listdir toy_os "extracted_data" fs1 = inr (l1 ++ f :: l2)
       /\ endswith f ".csv" = true
       /\ forallb (fun g => negb (endswith g ".csv")) (l1 ++ l2) = true
       /\ read_csv toy_os (path_join toy_os "extracted_data" f) fs1 = inr scenario
       /\ {| fs := ["notes.txt"; "data.csv"]; stdout := [["notes.txt"; "data.csv"]] |}
          = {| fs := fs1; stdout := [] ++ [l1 ++ f :: l2] |}.
Proof.
  apply (ingest_returns_only_for_a_single_csv toy_os "a.zip"
           {| fs := ["notes.txt"]; stdout := [] |}
           {| fs := ["notes.txt"; "data.csv"]; stdout := [["notes.txt"; "data.csv"]] |}
           scenario).
  reflexivity.
Defined.

Lemma ingest_fails_witness :
  ZipDataIngestor_ingest toy_os "a.zip" {| fs := ["old.csv"]; stdout := [] |}
  = (inl MultipleCsvFound,
     {| fs := ["old.csv"; "data.csv"]; stdout := [["old.csv"; "data.csv"]] |}).
Proof.
  refine (proj2 (ingest_fails_on_csv_count toy_os "a.zip"
                   {| fs := ["old.csv"]; stdout := [] |}
                   ["old.csv"; "data.csv"] ["old.csv"; "data.csv"]
                   eq_refl eq_refl eq_refl) _).
  vm_compute. lia.
Defined.

(* ===================================================================== *)
(** * The handler class *)
(* ===================================================================== *)

(** [handle] does not read the log: from two states with the same objects it
    yields the same outcome and the same objects. *)
Lemma handle_ignores_log (strategy : MissingValueHandlingStrategy.t) (df : ref)
    (h : gmap positive DataFrame) (l1 l2 : list (level * message)) :
  let a := MissingValueHandlingStrategy.handle strategy df {| heap := h; log := l1 |} in
  let b := MissingValueHandlingStrategy.handle strategy df {| heap := h; log := l2 |} in
  fst a = fst b /\ heap (snd a) = heap (snd b).
Proof.
  cbv zeta. destruct (h !! df) as [D|] eqn:Hdf.
  - destruct strategy as [[a k]|[m v]]; cbn [MissingValueHandlingStrategy.handle].
    + change {| DropMissingValuesStrategy.axis := a;
                DropMissingValuesStrategy.thresh := k |} with (drop_with a k).
      rewrite (handle_drop {| heap := h; log := l1 |} df D Hdf).
      rewrite (handle_drop {| heap := h; log := l2 |} df D Hdf).
      cbv zeta. destruct (dropna a k D); cbn [fst snd heap]; auto.
    + change {| FillMissingValuesStrategy.method := m;
                FillMissingValuesStrategy.fill_value := v |} with (fill_with m v).
      destruct (String.eqb_spec m "mean") as [->|Hmean].
      { rewrite (handle_mean {| heap := h; log := l1 |} df D Hdf).
        rewrite (handle_mean {| heap := h; log := l2 |} df D Hdf).
        cbn [fst snd heap]. auto. }
      destruct (String.eqb_spec m "median") as [->|Hmedian].
      { rewrite (handle_median {| heap := h; log := l1 |} df D Hdf).
        rewrite (handle_median {| heap := h; log := l2 |} df D Hdf).
        cbn [fst snd heap]. auto. }
      destruct (String.eqb_spec m "mode") as [->|Hmode].
      { rewrite (handle_mode {| heap := h; log := l1 |} df D Hdf).
        rewrite (handle_mode {| heap := h; log := l2 |} df D Hdf).
        cbn [fst snd heap]. auto. }
      destruct (String.eqb_spec m "constant") as [->|Hconstant].
      { rewrite (handle_constant {| heap := h; log := l1 |} df D Hdf).
        rewrite (handle_constant {| heap := h; log := l2 |} df D Hdf).
        cbv zeta. destruct (fillna D v); cbn [fst snd heap]; auto. }
      assert (Hm : FillMissingValuesStrategy.allowed m = false).
      { unfold FillMissingValuesStrategy.allowed. simpl.
        apply String.eqb_neq in Hmean, Hmedian, Hmode, Hconstant.
        now rewrite Hmean, Hmedian, Hmode, Hconstant. }
      rewrite (handle_other {| heap := h; log := l1 |} df D Hdf m v Hm).
      rewrite (handle_other {| heap := h; log := l2 |} df D Hdf m v Hm).
      cbn [fst snd heap]. auto.
  - destruct strategy as [self|self]; cbn [MissingValueHandlingStrategy.handle].
    + rewrite !handle_drop_dangling by exact Hdf. cbn [fst snd heap]. auto.
    + rewrite !handle_fill_dangling by exact Hdf. cbn [fst snd heap]. auto.
Qed.

(** A handler built with one strategy and switched to another handles
    missing values as the second strategy alone does: same outcome, same
    objects; the handler only adds its two log records before the strategy
    runs. *)
Theorem handler_uses_the_strategy_set_last
    (first second : MissingValueHandlingStrategy.t) (df : ref) (s : state) :
  let through_handler :=
    (handler <- MissingValueHandler.__init__ first ;;
     handler <- MissingValueHandler.set_strategy handler second ;;
     MissingValueHandler.handle_missing_values handler df)%py s in
  let direct := MissingValueHandlingStrategy.handle second df s in
  fst through_handler = fst direct
  /\ heap (snd through_handler) = heap (snd direct)
  /\ exists rest,
       log (snd through_handler)
       = log s ++ [(INFO, SwitchingStrategy); (INFO, ExecutingStrategy)] ++ rest.
Proof.
  cbv zeta.
  assert (E : (handler <- MissingValueHandler.__init__ first ;;
               handler <- MissingValueHandler.set_strategy handler second ;;
               MissingValueHandler.handle_missing_values handler df)%py s
              = MissingValueHandlingStrategy.handle second df
                  {| heap := heap s;
                     log := (log s ++ [(INFO, SwitchingStrategy)])
                              ++ [(INFO, ExecutingStrategy)] |})
    by reflexivity.
  rewrite E. clear E.
  destruct s as [h l]. cbn [heap log].
  pose proof (handle_ignores_log second df h
                ((l ++ [(INFO, SwitchingStrategy)]) ++ [(INFO, ExecutingStrategy)]) l)
    as [Ho Hh].
  split; [exact Ho|]. split; [exact Hh|].
  set (l0 := (l ++ [(INFO, SwitchingStrategy)]) ++ [(INFO, ExecutingStrategy)]).
  assert (Hgrow : forall st dfr s0,
            exists rest,
              log (snd (MissingValueHandlingStrategy.handle st dfr s0)) = log s0 ++ rest).
  { intros st dfr s0. destruct (heap s0 !! dfr) as [D|] eqn:Hdf.
    - destruct st as [[a k]|self]; cbn [MissingValueHandlingStrategy.handle].
      + change {| DropMissingValuesStrategy.axis := a;
                  DropMissingValuesStrategy.thresh := k |} with (drop_with a k).
        rewrite (handle_drop s0 dfr D Hdf). cbv zeta.
        destruct (dropna a k D); cbn [snd log]; rewrite <- ?List.app_assoc; eauto.
      + pose proof (handle_fill_result self s0 dfr D Hdf) as Hres.
        inversion Hres; cbn [snd log]; rewrite <- ?List.app_assoc; eauto.
    - destruct st as [self|self]; cbn [MissingValueHandlingStrategy.handle].
      + rewrite handle_drop_dangling by exact Hdf. cbn [snd log]. eauto.
      + rewrite handle_fill_dangling by exact Hdf. cbn [snd log]. eauto. }
  destruct (Hgrow second df {| heap := h; log := l0 |}) as (rest & Hrest).
  exists rest. rewrite Hrest. cbn [log]. subst l0.
  now rewrite <- !List.app_assoc.
Qed.
